(** * Shallow embedding of parts of the NeMo toolkit

    Modules of this development:
    - [PyBase]: Python exceptions and the error monad used by every model;
    - [PromptTable]: nemo/collections/nlp/modules/common/prompt_table.py;
    - [TsVad]: nemo/collections/asr/models/tsvad_models.py;
    - [StreamWrap]: nemo/collections/asr/parts/submodules/stream_wrapper.py;
    - [PunctNMT]: examples/nlp/machine_translation/punctuation_infer/punctuate_capitalize_nmt.py;
    - [PunctFst]: nemo_text_processing/text_normalization/verbalizers/punctuation.py;
    - [PromptTableOps], [StreamWrapForward], [PunctNMTLabels], [TsVadMetric]:
      further methods of the same files (table operations, [forward]
      dispatch, vote collection and label application, [MultiBinaryAcc]
      and [get_uniq_id]).

    Each module [X] has its proofs in [XFacts] after the models
    ([StreamWrapInitFacts], [SplitSegmentsFacts] and [PunctFstDomain] hold
    further facts on [StreamWrap], [PunctNMT] and [PunctFst]).
    Floating-point tensors are modelled as nested lists of rationals [Q]
    (the metric's tensors as a shape and an entry function). *)

From Stdlib Require Import String Ascii List Bool Arith ZArith QArith Lia.
From Stdlib Require Import Sorting.Sorted.
From Stdlib Require Import Qabs Qfield.
Import ListNotations.
Open Scope nat_scope.

Module PyBase.

(** The Python exceptions raised along the modelled paths. *)
Inductive PyExc :=
| ValueError
| TypeError
| AttributeError
| IndexError
| KeyError
| NameError
| AssertionError
| StatisticsError
| ZeroDivisionError
| RuntimeError.

(** A computation either returns or raises. *)
Inductive Result (A : Type) : Type :=
| Ok (a : A)
| Err (e : PyExc).
Arguments Ok {A} a.
Arguments Err {A} e.

Definition bind {A B : Type} (m : Result A) (k : A -> Result B) : Result B :=
  match m with
  | Ok a => k a
  | Err e => Err e
  end.

Notation "x <- m ;; k" := (bind m (fun x => k))
  (at level 61, m at next level, right associativity).

Definition raise_if {A : Type} (b : bool) (e : PyExc) (k : Result A) : Result A :=
  if b then Err e else k.

(** Association lists keyed by strings, as Python dicts in insertion order. *)
Fixpoint assoc {V : Type} (d : list (string * V)) (k : string) : option V :=
  match d with
  | [] => None
  | (k', v) :: d' => if String.eqb k k' then Some v else assoc d' k
  end.

(** Shape of a two-dimensional tensor (rows, columns). *)
Definition has_shape (t : list (list Q)) (rows cols : nat) : Prop :=
  length t = rows /\ Forall (fun r => length r = cols) t.

End PyBase.

Import PyBase.

(** ** prompt_table.py *)
Module PromptTable.
Local Open Scope string_scope.

Definition Row := list Q.
Definition Table := list Row.

(** The fields of a [PromptEmbedding] module. *)
Record PromptEmbedding := mkPromptEmbedding {
  hidden_size : nat;
  total_soft_tokens : nat;
  prompt_embeddings_weight : Table;
  indices : list nat;
  embedding_dropout_p : Q;
  training : bool
}.

Definition zeros_table (rows cols : nat) : Table := repeat (repeat 0%Q cols) rows.

(** [PromptEmbedding.__init__]: [torch.nn.Embedding(total_soft_tokens,
    hidden_size)] gives a [total_soft_tokens x hidden_size] table that
    [init_method] fills in place; with [init_from_prompt_text] the weight is
    replaced by [word_embedding_weights]; [indices] is
    [list(range(total_soft_tokens))]. [training] is the module's mode. *)
Definition PromptEmbedding_init (init_from_prompt_text : bool)
    (hidden_size total_soft_tokens : nat) (word_embedding_weights : Table)
    (init_method : Table -> Table) (prompt_embedding_dropout_prob : Q)
    (training : bool) : PromptEmbedding :=
  let w0 := init_method (zeros_table total_soft_tokens hidden_size) in
  let w := if init_from_prompt_text then word_embedding_weights else w0 in
  mkPromptEmbedding hidden_size total_soft_tokens w (seq 0 total_soft_tokens)
    prompt_embedding_dropout_prob training.

(** [torch.nn.Embedding] lookup: one row per index, [IndexError] out of range. *)
Fixpoint embedding_lookup (w : Table) (idx : list nat) : Result Table :=
  match idx with
  | [] => Ok []
  | i :: idx' =>
      match nth_error w i with
      | None => Err IndexError
      | Some r => rest <- embedding_lookup w idx';; Ok (r :: rest)
      end
  end.

Fixpoint mapi_from {A B : Type} (k : nat) (f : nat -> A -> B) (l : list A) : list B :=
  match l with
  | [] => []
  | x :: l' => f k x :: mapi_from (S k) f l'
  end.

Section Dropout.
(** [bernoulli q i j]: the keep-mask entry drawn with keep probability [q]
    at position [(i, j)]. *)
Variable bernoulli : Q -> nat -> nat -> bool.

(** [torch.nn.Dropout(p)]: identity in eval mode; in training mode each
    entry is kept with probability [1 - p] and scaled by [1 / (1 - p)]. *)
Definition dropout (p : Q) (training : bool) (x : Table) : Table :=
  if training then
    mapi_from 0 (fun i r =>
      mapi_from 0 (fun j v =>
        if bernoulli (1 - p)%Q i j then (v / (1 - p))%Q else 0%Q) r) x
  else x.

(** [PromptEmbedding.forward]. *)
Definition forward (e : PromptEmbedding) : Result Table :=
  prompt_embeddings <- embedding_lookup (prompt_embeddings_weight e) (indices e);;
  Ok (dropout (embedding_dropout_p e) (training e) prompt_embeddings).
End Dropout.

(** The state of a [PromptTable] module. *)
Record PromptTableState := mkPromptTableState {
  pt_total_soft_tokens : nat;
  pt_hidden_size : nat;
  prompt_table : list (string * PromptEmbedding);
  task_id_num_to_name : list (nat * string)
}.

(** Python values reachable from the body of [remove_prompt]. *)
Inductive PyVal :=
| VSelf (s : PromptTableState)
| VStr (s : string)
| VTaskTable (t : list (string * PromptEmbedding))
| VIdMap (m : list (nat * string))
| VModuleObject (name : string).

(** Names bound at the top level of prompt_table.py. *)
Definition module_globals : list string :=
  ["math"; "torch"; "nn"; "init"; "init_method_normal"; "Exportable";
   "NeuralModule"; "tensor_parallel"; "HAVE_APEX"; "__all__"; "PromptTable";
   "PromptEmbedding"].

(** The Python builtins the module uses. *)
Definition builtins : list string :=
  ["len"; "list"; "range"; "super"; "None"; "ImportError"; "ModuleNotFoundError"].

(** Python's LEGB lookup of a bare name inside a method body. *)
Definition resolve_name (locals : list (string * PyVal)) (name : string) : Result PyVal :=
  match assoc locals name with
  | Some v => Ok v
  | None =>
      if existsb (String.eqb name) module_globals then Ok (VModuleObject name)
      else if existsb (String.eqb name) builtins then Ok (VModuleObject name)
      else Err NameError
  end.

(** [x in d] for a dict value. *)
Definition py_contains (d : PyVal) (k : string) : Result bool :=
  match d with
  | VTaskTable t => Ok (existsb (fun kv => String.eqb (fst kv) k) t)
  | _ => Err TypeError
  end.

Fixpoint find_task_id (m : list (nat * string)) (taskname : string) : option nat :=
  match m with
  | [] => None
  | (key, value) :: m' => if String.eqb value taskname then Some key else find_task_id m' taskname
  end.

Definition del_id (m : list (nat * string)) (k : option nat) : Result (list (nat * string)) :=
  match k with
  | None => Err KeyError
  | Some n =>
      if existsb (fun kv => Nat.eqb (fst kv) n) m
      then Ok (filter (fun kv => negb (Nat.eqb (fst kv) n)) m)
      else Err KeyError
  end.

Definition del_task (t : list (string * PromptEmbedding)) (k : string)
    : Result (list (string * PromptEmbedding)) :=
  if existsb (fun kv => String.eqb (fst kv) k) t
  then Ok (filter (fun kv => negb (String.eqb (fst kv) k)) t)
  else Err KeyError.

(** [PromptTable.remove_prompt]: the body names [prompt_table] and
    [task_id_num_to_name] without [self.]. *)
Definition remove_prompt (self : PromptTableState) (taskname : string)
    : Result PromptTableState :=
  let locals := [("self", VSelf self); ("taskname", VStr taskname)] in
  pt <- resolve_name locals "prompt_table";;
  present <- py_contains pt taskname;;
  if negb present then Ok self
  else
    m <- resolve_name locals "task_id_num_to_name";;
    match m with
    | VIdMap items =>
        let task_id_num := find_task_id items taskname in
        ids <- del_id (task_id_num_to_name self) task_id_num;;
        tasks <- del_task (prompt_table self) taskname;;
        Ok (mkPromptTableState (pt_total_soft_tokens self) (pt_hidden_size self) tasks ids)
    | _ => Err AttributeError
    end.

End PromptTable.

(** ** prompt_table.py: construction, the methods that add prompts, [forward] *)
Module PromptTableOps.
Import PromptTable.
Local Open Scope string_scope.

(** A [ModuleDict] entry set in place: an existing key keeps its position. *)
Fixpoint moduledict_put (d : list (string * PromptEmbedding)) (k : string)
    (v : PromptEmbedding) : list (string * PromptEmbedding) :=
  match d with
  | [] => [(k, v)]
  | (k', v') :: d' => if String.eqb k k' then (k', v) :: d' else (k', v') :: moduledict_put d' k v
  end.

Definition has_key (d : list (string * PromptEmbedding)) (k : string) : bool :=
  existsb (fun kv => String.eqb (fst kv) k) d.

Definition with_table (self : PromptTableState) (t : list (string * PromptEmbedding))
    : PromptTableState :=
  mkPromptTableState (pt_total_soft_tokens self) (pt_hidden_size self) t
    (task_id_num_to_name self).

(** [math.ceil(a / b)] for [b > 0] (exact for sizes below 2^53). *)
Definition ceil_div (a b : nat) : nat := (a + b - 1) / b.

(** The id list of [init_prompt_from_text], lines 86-100: trimmed to
    [total_soft_tokens], or repeated [ceil(total / n)] times and cut;
    [total / 0] raises [ZeroDivisionError]. *)
Definition prompt_token_ids (init_token_ids : list nat) (total_soft_tokens : nat)
    : Result (list nat) :=
  let num_text_tokens := List.length init_token_ids in
  ids <- (if Nat.ltb total_soft_tokens num_text_tokens
          then Ok (firstn total_soft_tokens init_token_ids)
          else if Nat.ltb num_text_tokens total_soft_tokens then
            if Nat.eqb num_text_tokens 0 then Err ZeroDivisionError
            else Ok (concat (repeat init_token_ids
                                    (ceil_div total_soft_tokens num_text_tokens)))
          else Ok init_token_ids);;
  Ok (firstn total_soft_tokens ids).

Section Methods.
(** [module_attr name]: [hasattr(module_dict, name)] holds for an attribute
    that is not a registered submodule ([training], [forward], [keys], ...). *)
Variable module_attr : string -> bool.
(** [init.xavier_normal_], the default [init_method] of [PromptEmbedding]. *)
Variable xavier_normal_ : Table -> Table.

(** [ModuleDict.__setitem__], i.e. [Module.add_module]: a key naming another
    attribute, holding a dot, or empty raises [KeyError]. *)
Definition moduledict_setitem (d : list (string * PromptEmbedding)) (k : string)
    (v : PromptEmbedding) : Result (list (string * PromptEmbedding)) :=
  if module_attr k && negb (has_key d k) then Err KeyError
  else if existsb (Ascii.eqb ".") (list_ascii_of_string k) then Err KeyError
  else if String.eqb k "" then Err KeyError
  else Ok (moduledict_put d k v).

(** [PromptEmbedding(init_from_prompt_text, self.hidden_size,
    self.total_soft_tokens, word_embedding_weights)] with the default
    [init_method]: [init.xavier_normal_] on the [total_soft_tokens x
    hidden_size] weight first computes
    [std = gain * math.sqrt(2.0 / float(fan_in + fan_out))] with
    [fan_in = hidden_size] and [fan_out = total_soft_tokens], which raises
    [ZeroDivisionError] when both are 0. A fresh module is in training mode;
    dropout defaults to [0.0]. *)
Definition new_prompt_embedding (self : PromptTableState) (init_from_prompt_text : bool)
    (word_embedding_weights : Table) : Result PromptEmbedding :=
  if Nat.eqb (pt_hidden_size self + pt_total_soft_tokens self) 0 then Err ZeroDivisionError
  else Ok (PromptEmbedding_init init_from_prompt_text (pt_hidden_size self)
             (pt_total_soft_tokens self) word_embedding_weights xavier_normal_ 0%Q true).

(** [PromptEmbedding(init_from_prompt_text=False, ...)]. *)
Definition random_prompt (self : PromptTableState) : Result PromptEmbedding :=
  new_prompt_embedding self false [].

(** The loop of lines 44-49: [self.prompt_table[taskname] = PromptEmbedding(...)]
    builds the module first; then a [None] key is not a [str]: [TypeError]. *)
Fixpoint add_existing_tasks (self : PromptTableState) (tasks : list (option string))
    : Result PromptTableState :=
  match tasks with
  | [] => Ok self
  | None :: _ =>
      e <- random_prompt self;;
      Err TypeError
  | Some k :: ks =>
      e <- random_prompt self;;
      t <- moduledict_setitem (prompt_table self) k e;;
      add_existing_tasks (with_table self t) ks
  end.

(** [PromptTable.__init__]; [existing_tasks = None] behaves as [[]]. *)
Definition PromptTable_init (existing_tasks : list (option string))
    (total_soft_tokens hidden_size : nat) : Result PromptTableState :=
  let self := mkPromptTableState total_soft_tokens hidden_size [] [] in
  match existing_tasks with
  | Some _ :: _ => add_existing_tasks self existing_tasks
  | _ => Ok self
  end.

(** [PromptTable.init_prompt_from_random]. *)
Definition init_prompt_from_random (self : PromptTableState) (taskname : string)
    : Result PromptTableState :=
  e <- random_prompt self;;
  t <- moduledict_setitem (prompt_table self) taskname e;;
  Ok (with_table self t).

(** [PromptTable.init_prompt_from_text]; [word_embeddings] is an embedding
    module, given by its weight table; [broadcast_data] hands every rank the
    ids of rank 0, which are these ids on a single rank. *)
Definition init_prompt_from_text (self : PromptTableState) (taskname : string)
    (init_token_ids : list nat) (word_embeddings : Table) : Result PromptTableState :=
  ids <- prompt_token_ids init_token_ids (pt_total_soft_tokens self);;
  word_embedding_weights <- embedding_lookup word_embeddings ids;;
  e <- new_prompt_embedding self true word_embedding_weights;;
  t <- moduledict_setitem (prompt_table self) taskname e;;
  Ok (with_table self t).

(** [PromptTable.add_prompt_from_p_tuning_encoder]. *)
Definition add_prompt_from_p_tuning_encoder (self : PromptTableState) (taskname : string)
    (soft_prompt_embeddings : Table) : Result PromptTableState :=
  e <- new_prompt_embedding self true soft_prompt_embeddings;;
  t <- moduledict_setitem (prompt_table self) taskname e;;
  Ok (with_table self t).

(** The public methods of [PromptTable] that change it. *)
Inductive TableOp :=
| OpInitRandom (taskname : string)
| OpInitText (taskname : string) (init_token_ids : list nat) (word_embeddings : Table)
| OpAddPTuning (taskname : string) (soft_prompt_embeddings : Table)
| OpRemove (taskname : string).

Definition apply_op (self : PromptTableState) (op : TableOp) : Result PromptTableState :=
  match op with
  | OpInitRandom k => init_prompt_from_random self k
  | OpInitText k ids w => init_prompt_from_text self k ids w
  | OpAddPTuning k soft => add_prompt_from_p_tuning_encoder self k soft
  | OpRemove k => remove_prompt self k
  end.

(** Calls in sequence; an exception ends the sequence. *)
Fixpoint run_ops (self : PromptTableState) (ops : list TableOp) : Result PromptTableState :=
  match ops with
  | [] => Ok self
  | op :: ops' => s <- apply_op self op;; run_ops s ops'
  end.
End Methods.

Fixpoint lookup_id (m : list (nat * string)) (k : nat) : option string :=
  match m with
  | [] => None
  | (k', v) :: m' => if Nat.eqb k k' then Some v else lookup_id m' k
  end.

(** [PromptTable.forward]: two dict lookups, each raising [KeyError], then
    the prompt's [forward]. *)
Definition PromptTable_forward (bernoulli : Q -> nat -> nat -> bool)
    (self : PromptTableState) (task_id_num : nat) : Result Table :=
  match lookup_id (task_id_num_to_name self) task_id_num with
  | None => Err KeyError
  | Some taskname =>
      match assoc (prompt_table self) taskname with
      | None => Err KeyError
      | Some e => forward bernoulli e
      end
  end.

End PromptTableOps.

(** ** tsvad_models.py *)
Module TsVad.

(** *** [ClusterEmbedding.assign_labels_to_longer_segs] *)

(** Distinct values in first-occurrence order (the key order of a
    [collections.Counter]). *)
Fixpoint first_occ (l : list nat) : list nat :=
  match l with
  | [] => []
  | x :: l' => x :: filter (fun y => negb (Nat.eqb y x)) (first_occ l')
  end.

Definition count_nat (l : list nat) (x : nat) : nat :=
  List.length (filter (Nat.eqb x) l).

(** Python's [max(items, key=key)]: the first item of maximal key. *)
Definition py_max_by {A : Type} (key : A -> nat) (l : list A) : option A :=
  match l with
  | [] => None
  | x :: l' => Some (fold_left (fun best y => if key best <? key y then y else best) l' x)
  end.

(** [statistics.mode] (Python 3.8 and later):
    [Counter(data).most_common(1)[0][0]], where [most_common(1)] is
    [max(counter.items(), key=count)]. *)
Definition mode (data : list nat) : Result nat :=
  let counter := map (fun x => (x, count_nat data x)) (first_occ data) in
  match py_max_by snd counter with
  | None => Err StatisticsError
  | Some (x, _) => Ok x
  end.

(** [list(set(xs))] and [for x in set(xs)]: Python fixes no order for a
    set. CPython iterates by hash slot, an int [i] going to slot
    [i mod table_size] (then probing), so [list(set([1, 8])) = [8, 1]] with
    the 8 slots of a small set. The functions below take the iteration
    order as a parameter [list_set]; [set_order_ok (list_set xs) xs] says
    that it lists every value of [xs] exactly once. *)
Fixpoint nodup_nat (l : list nat) : bool :=
  match l with
  | [] => true
  | x :: l' => negb (existsb (Nat.eqb x) l') && nodup_nat l'
  end.

Definition set_order_ok (ys xs : list nat) : bool :=
  nodup_nat ys && forallb (fun y => existsb (Nat.eqb y) xs) ys
  && forallb (fun x => existsb (Nat.eqb x) ys) xs.

(** The increasing order, one admissible [list_set] (CPython's when every
    value is below the size of the hash table, as for [0 .. k-1]). *)
Definition set_list_increasing (xs : list nat) : list nat :=
  filter (fun i => existsb (Nat.eqb i) xs) (seq 0 (S (list_max xs))).

(** numpy [labels[mapping == seg_idx]]: boolean mask of the same length. *)
Definition masked_select (labels mapping : list nat) (seg_idx : nat) : Result (list nat) :=
  if List.length labels =? List.length mapping then
    Ok (map fst (filter (fun p => Nat.eqb (snd p) seg_idx) (combine labels mapping)))
  else Err IndexError.

(** A base-scale cluster-label entry [[stt, end, label]]. *)
Record ClusEntry := mkClusEntry { stt : Q; end_ : Q; label : nat }.

(** Dicts keyed by ints and by session ids, in insertion order. *)
Fixpoint assoc_nat {V : Type} (d : list (nat * V)) (k : nat) : option V :=
  match d with
  | [] => None
  | (k', v) :: d' => if Nat.eqb k k' then Some v else assoc_nat d' k
  end.

Fixpoint dict_set {V : Type} (d : list (string * V)) (k : string) (v : V) : list (string * V) :=
  match d with
  | [] => [(k, v)]
  | (k', v') :: d' => if String.eqb k k' then (k', v) :: d' else (k', v') :: dict_set d' k v
  end.

(** [new_clus_label_dict[scale][uniq_id] = v]; [KeyError] for a missing scale. *)
Fixpoint set_scale_entry (d : list (nat * list (string * list nat))) (scale : nat)
    (uniq_id : string) (v : list nat) : Result (list (nat * list (string * list nat))) :=
  match d with
  | [] => Err KeyError
  | (s, inner) :: d' =>
      if Nat.eqb s scale then Ok ((s, dict_set inner uniq_id v) :: d')
      else rest <- set_scale_entry d' scale uniq_id v;; Ok ((s, inner) :: rest)
  end.

(** [for seg_idx in list(set(mapping)): new_clus_label.append(mode(...))]. *)
Fixpoint modes_of_segments (base mapping : list nat) (segs : list nat) : Result (list nat) :=
  match segs with
  | [] => Ok []
  | seg_idx :: segs' =>
      selected <- masked_select base mapping seg_idx;;
      seg_clus_label <- mode selected;;
      rest <- modes_of_segments base mapping segs';;
      Ok (seg_clus_label :: rest)
  end.

Section SetOrder.
(** [list_set xs]: the iteration order of [set(xs)]. *)
Variable list_set : list nat -> list nat.

(** [for scale_index in range(scale_n-1)] over one session. *)
Fixpoint coarse_scales (scales : list nat) (base : list nat)
    (uniq_scale_mapping_dict : list (nat * list nat)) (uniq_id : string)
    (d : list (nat * list (string * list nat))) : Result (list (nat * list (string * list nat))) :=
  match scales with
  | [] => Ok d
  | scale_index :: scales' =>
      match assoc_nat uniq_scale_mapping_dict scale_index with
      | None => Err KeyError
      | Some mapping =>
          new_clus_label <- modes_of_segments base mapping (list_set mapping);;
          d' <- set_scale_entry d scale_index uniq_id new_clus_label;;
          coarse_scales scales' base uniq_scale_mapping_dict uniq_id d'
      end
  end.

(** The loop over sessions. [prev] is the value [base_scale_clus_label]
    still holds from the previous iteration: when the session is missing
    from [base_clus_label_dict], the bare [except] opens the debugger and the
    loop then goes on with that stale value, or fails with
    [UnboundLocalError] (a [NameError]) on the first iteration. *)
Fixpoint sessions_loop (scale_n : nat) (base_clus_label_dict : list (string * list ClusEntry))
    (sessions : list (string * list (nat * list nat))) (prev : option (list nat))
    (d : list (nat * list (string * list nat))) : Result (list (nat * list (string * list nat))) :=
  match sessions with
  | [] => Ok d
  | (uniq_id, uniq_scale_mapping_dict) :: sessions' =>
      base_scale_clus_label <-
        match assoc base_clus_label_dict uniq_id with
        | Some entries => Ok (map label entries)
        | None => match prev with Some b => Ok b | None => Err NameError end
        end;;
      d1 <- (if Nat.eqb scale_n 0 then Err KeyError
             else set_scale_entry d (scale_n - 1) uniq_id base_scale_clus_label);;
      d2 <- coarse_scales (seq 0 (scale_n - 1)) base_scale_clus_label
              uniq_scale_mapping_dict uniq_id d1;;
      sessions_loop scale_n base_clus_label_dict sessions' (Some base_scale_clus_label) d2
  end.

Definition assign_labels_to_longer_segs (scale_n : nat)
    (base_clus_label_dict : list (string * list ClusEntry))
    (session_scale_mapping_dict : list (string * list (nat * list nat)))
    : Result (list (nat * list (string * list nat))) :=
  let new_clus_label_dict := map (fun scale_index => (scale_index, [])) (seq 0 scale_n) in
  sessions_loop scale_n base_clus_label_dict session_scale_mapping_dict None new_clus_label_dict.
End SetOrder.

(** Lookup [d[scale][uniq_id]] in the result. *)
Definition lookup_labels (d : list (nat * list (string * list nat))) (scale : nat)
    (uniq_id : string) : option (list nat) :=
  match assoc_nat d scale with
  | Some inner => assoc inner uniq_id
  | None => None
  end.

(** *** [ClusterEmbedding.get_clus_emb], the [avg_embs] of one session at one scale *)

Definition Matrix := list (list Q).

Definition zeros (rows cols : nat) : Matrix := repeat (repeat 0%Q cols) rows.

(** [emb_tensor[label_array == spk_idx]]: rows whose label is [spk_idx]. *)
Definition select_rows (emb_tensor : Matrix) (label_array : list nat) (spk_idx : nat)
    : Result Matrix :=
  if List.length emb_tensor =? List.length label_array then
    Ok (map fst (filter (fun p => Nat.eqb (snd p) spk_idx) (combine emb_tensor label_array)))
  else Err IndexError.

Definition Qsum (l : list Q) : Q := fold_right Qplus 0%Q l.

(** [torch.mean(selected_embs, dim=0)]: one mean per column, the rows of
    a tensor all having the width of the first. (An empty selection, whose
    mean is a row of NaN, is never formed below: [spk_idx] is a label of the
    session.) *)
Definition mean_rows (rows : Matrix) : list Q :=
  let width := match rows with
               | r :: _ => List.length r
               | [] => 0
               end in
  map (fun j => (Qsum (map (fun r => nth j r 0%Q) rows) / inject_Z (Z.of_nat (List.length rows)))%Q)
    (seq 0 width).

Fixpoint replace_nth {A : Type} (l : list A) (n : nat) (x : A) : list A :=
  match l, n with
  | [], _ => []
  | _ :: l', 0 => x :: l'
  | y :: l', S n' => y :: replace_nth l' n' x
  end.

(** [avg_embs[:, spk_idx] = v] on a [dim x max_num_of_spks] matrix:
    [IndexError] for a column out of range; [v] is broadcast to the [dim]
    entries of the column, so it has [dim] entries or a single one, and
    [RuntimeError] otherwise. *)
Definition set_column (avg_embs : Matrix) (max_num_of_spks spk_idx : nat) (v : list Q)
    : Result Matrix :=
  if spk_idx <? max_num_of_spks then
    if List.length v =? List.length avg_embs then
      Ok (map (fun p => replace_nth (fst p) spk_idx (snd p)) (combine avg_embs v))
    else
      match v with
      | [x] => Ok (map (fun r => replace_nth r spk_idx x) avg_embs)
      | _ => Err RuntimeError
      end
  else Err IndexError.

Section SetIteration.
(** [list_set xs]: the iteration order of [set(xs)], as above. *)
Variable list_set : list nat -> list nat.

Fixpoint fill_columns (emb_tensor : Matrix) (label_array : list nat) (max_num_of_spks : nat)
    (spks : list nat) (avg_embs : Matrix) : Result Matrix :=
  match spks with
  | [] => Ok avg_embs
  | spk_idx :: spks' =>
      selected_embs <- select_rows emb_tensor label_array spk_idx;;
      avg' <- set_column avg_embs max_num_of_spks spk_idx (mean_rows selected_embs);;
      fill_columns emb_tensor label_array max_num_of_spks spks' avg'
  end.

(** Lines 270-279 of [get_clus_emb] for one [(scale_index, uniq_id)];
    [dim] is the value line 267 computes. *)
Definition session_avg_embs (clus_label_list : list nat) (emb_tensor : Matrix)
    (dim max_num_of_spks : nat) : Result Matrix :=
  let spk_set := list_set clus_label_list in
  let spk_N := List.length spk_set in
  if negb (spk_N <=? max_num_of_spks) then Err AssertionError
  else
    let label_array := clus_label_list in
    let avg_embs := zeros dim max_num_of_spks in
    fill_columns emb_tensor label_array max_num_of_spks spk_set avg_embs.
End SetIteration.

(** Column [j] of a matrix stored by rows. *)
Definition column (m : Matrix) (j : nat) : list Q := map (fun r => nth j r 0%Q) m.

(** *** [EncDecDiarLabelModel.forward] *)

(** [processed_signal] has layout [batch][feature][time]. *)
Definition Features := list (list (list Q)).

Section Forward.
Variables (Signal IVectors Preds : Type).
Variable preprocessor : Signal -> list nat -> Features * list nat.
Variable tsvad : Features -> list nat -> IVectors -> Preds.

Definition forward (input_signal : Signal) (input_signal_length : list nat)
    (ivectors : IVectors) : Preds :=
  let length := 3000 in
  let '(processed_signal, processed_signal_len) :=
    preprocessor input_signal input_signal_length in
  let processed_signal := map (map (firstn length)) processed_signal in
  let processed_signal_len := map (fun _ => length * 1) processed_signal_len in
  tsvad processed_signal processed_signal_len ivectors.
End Forward.

(** *** [EncDecDiarLabelModel.__init__], the [world_size] assignment *)

Record Trainer := mkTrainer { num_nodes : nat; num_gpus : nat }.

Definition init_world_size (trainer : option Trainer) : nat :=
  let world_size := 1 in
  match trainer with
  | Some t => num_nodes t * num_gpus t
  | None => world_size
  end.

End TsVad.

(** ** stream_wrapper.py *)
Module StreamWrap.

Inductive StreamInferenceMode :=
| TRAINING
| STREAM_INTERNAL_STATE_INFERENCE
| STREAM_EXTERNAL_STATE_INFERENCE
| NON_STREAM_INFERENCE.

Definition is_non_streaming (m : StreamInferenceMode) : bool :=
  match m with
  | TRAINING | NON_STREAM_INFERENCE => true
  | _ => false
  end.

(** Tensors with layout [batch][time][feature]. *)
Definition Tensor := list (list (list Q)).

(** The wrapped layers, grouped as [_is_conv_op] ([Conv1d], [Conv2d]),
    [_is_pool_op] ([AvgPool1d], [AvgPool2d]) and [_is_global_time_dim_op]
    ([Flatten], [AdaptiveMaxPool1d], [AdaptiveAvgPool1d]) group them; the
    numbers are the time-dimension entries [kernel_size[0]], [stride[0]],
    [dilation[0]]; [padding] is the conv's [padding] attribute, which torch
    stores as a tuple ([(0,)] for [padding=0]); [run] is the layer's own
    forward. *)
Inductive Layer :=
| ConvOp (kernel_size stride dilation : nat) (padding : list nat) (run : Tensor -> Tensor)
| PoolOp (kernel_size stride : nat) (run : Tensor -> Tensor)
| GlobalTimeDimOp (run : Tensor -> Tensor)
| OtherLayer (run : Tensor -> Tensor).

Definition layer_run (l : Layer) : Tensor -> Tensor :=
  match l with
  | ConvOp _ _ _ _ f | PoolOp _ _ f | GlobalTimeDimOp f | OtherLayer f => f
  end.

(** The attributes of a [StreamWrapper]. [_parameters] is the
    [nn.Module] parameter table; [tensor_attrs] holds plain tensor
    attributes of the instance [__dict__]; the only submodule, in
    [_modules], is [inner_module]. *)
Record Wrapper := mkWrapper {
  inner_module : Layer;
  inference_batch_size : nat;
  mode : StreamInferenceMode;
  pad_time_dim : option string;
  state_shape : option (list nat);
  ring_buffer_size_in_time_dim : option nat;
  samplewise_inference : bool;
  stride : nat;
  built : bool;
  _parameters : list (string * Tensor);
  tensor_attrs : list (string * Tensor)
}.

Definition set_ring_and_stride (w : Wrapper) (r : option nat) (s : nat) : Wrapper :=
  mkWrapper (inner_module w) (inference_batch_size w) (mode w) (pad_time_dim w)
    (state_shape w) r (samplewise_inference w) s (built w) (_parameters w) (tensor_attrs w).

Definition set_tensor_attrs (w : Wrapper) (a : list (string * Tensor)) : Wrapper :=
  mkWrapper (inner_module w) (inference_batch_size w) (mode w) (pad_time_dim w)
    (state_shape w) (ring_buffer_size_in_time_dim w) (samplewise_inference w)
    (stride w) (built w) (_parameters w) a.

(** [self.name] for a tensor attribute: the instance [__dict__] first, then
    [nn.Module.__getattr__] on [_parameters]. *)
Definition getattr_tensor (w : Wrapper) (name : string) : Result Tensor :=
  match assoc (tensor_attrs w) name with
  | Some t => Ok t
  | None =>
      match assoc (_parameters w) name with
      | Some t => Ok t
      | None => Err AttributeError
      end
  end.

(** [self.name] for a submodule: [_modules] holds [inner_module] only. *)
Definition getattr_module (w : Wrapper) (name : string) : Result Layer :=
  if String.eqb name "inner_module"%string then Ok (inner_module w) else Err AttributeError.

Fixpoint dict_set {V : Type} (d : list (string * V)) (k : string) (v : V) : list (string * V) :=
  match d with
  | [] => [(k, v)]
  | (k', v') :: d' => if String.eqb k k' then (k', v) :: d' else (k', v') :: dict_set d' k v
  end.

(** [nn.Module.__setattr__] with a plain tensor: a name registered in
    [_parameters] only accepts an [nn.Parameter] or [None]. *)
Definition setattr_tensor (w : Wrapper) (name : string) (v : Tensor) : Result Wrapper :=
  match assoc (_parameters w) name with
  | Some _ => Err TypeError
  | None => Ok (set_tensor_attrs w (dict_set (tensor_attrs w) name v))
  end.

(** [input.shape[1]] (batch taken non-empty). *)
Definition time_dim (t : Tensor) : nat :=
  match t with
  | b :: _ => List.length b
  | [] => 0
  end.

(** [t[:, lo:hi, :]]. *)
Definition slice_time (t : Tensor) (lo : nat) (hi : option nat) : Tensor :=
  map (fun b => match hi with
                | Some h => firstn (h - lo) (skipn lo b)
                | None => skipn lo b
                end) t.

(** [t[:, -n:, :]] for [n > 0]. *)
Definition last_time (t : Tensor) (n : nat) : Tensor :=
  map (fun b => skipn (List.length b - n) b) t.

(** [torch.cat([a, b], dim=1)]: the batch sizes must agree. *)
Definition cat_time (a b : Tensor) : Result Tensor :=
  if List.length a =? List.length b then Ok (map (fun p => fst p ++ snd p) (combine a b))
  else Err RuntimeError.

Definition same_shape (a b : Tensor) : bool :=
  (List.length a =? List.length b) &&
  forallb (fun p => (List.length (fst p) =? List.length (snd p)) &&
                    forallb (fun q => List.length (fst q) =? List.length (snd q))
                      (combine (fst p) (snd p)))
    (combine a b).

(** [self.states * 0 + memory] for tensors of equal shape. *)
Definition zero_add (s m : Tensor) : Result Tensor :=
  if same_shape s m then
    Ok (map (fun p => map (fun q => map (fun r => (fst r * 0 + snd r)%Q) (combine (fst q) (snd q)))
                     (combine (fst p) (snd p))) (combine s m))
  else Err RuntimeError.

(** [t != i] for a tuple [t] and an int [i]: a tuple never equals an int. *)
Definition tuple_ne_int (t : list nat) (i : nat) : bool := true.

(** [StreamWrapper.__init__] (the fields it sets, then the ring-buffer
    initialisation). *)
Definition initialize_ring_buffer_size_in_time_dim (w : Wrapper) : Result Wrapper :=
  match ring_buffer_size_in_time_dim w with
  | Some _ => Ok w
  | None =>
      match inner_module w with
      | ConvOp kernel_size strides dilation_rate padding _ =>
          if negb (is_non_streaming (mode w)) && tuple_ne_int padding 0 then Err ValueError
          else if negb (is_non_streaming (mode w)) && samplewise_inference w && (1 <? strides)
          then Err ValueError
          else
            let r := if samplewise_inference w then dilation_rate * (kernel_size - 1) + 1
                     else Z.to_nat (Z.max 0 (Z.of_nat (dilation_rate * (kernel_size - 1))
                                              - (Z.of_nat strides - 1))) in
            Ok (set_ring_and_stride w (Some r) strides)
      | PoolOp kernel_size strides _ =>
          if negb (is_non_streaming (mode w)) && negb (strides =? kernel_size) then Err ValueError
          else Ok (set_ring_and_stride w (Some kernel_size) strides)
      | GlobalTimeDimOp _ =>
          match state_shape w with
          | None | Some [] => Ok w
          | Some [_] => Err IndexError
          | Some (_ :: t :: _) => Ok (set_ring_and_stride w (Some t) (stride w))
          end
      | OtherLayer _ => Err ValueError
      end
  end.

Definition StreamWrapper_init (module : Layer) (inference_batch_size : nat)
    (mode : StreamInferenceMode) (pad_time_dim : option string)
    (state_shape : option (list nat)) (ring_buffer_size_in_time_dim : option nat)
    (samplewise_inference : bool) : Result Wrapper :=
  let w := mkWrapper module inference_batch_size mode pad_time_dim state_shape
             ring_buffer_size_in_time_dim samplewise_inference 1 false [] [] in
  match module with
  | GlobalTimeDimOp _ => if negb samplewise_inference then Err ValueError
                         else initialize_ring_buffer_size_in_time_dim w
  | _ => initialize_ring_buffer_size_in_time_dim w
  end.

(** [StreamWrapper._streaming_internal_state]; the result is the wrapper
    after the call and the returned tensor. *)
Definition streaming_internal_state (w : Wrapper) (input : Tensor) : Result (Wrapper * Tensor) :=
  if samplewise_inference w then
    if negb (time_dim input =? 1) then Err ValueError
    else
      states <- getattr_tensor w "states"%string;;
      memory <- cat_time (slice_time states 1 (ring_buffer_size_in_time_dim w)) input;;
      update <- zero_add states memory;;
      w' <- setattr_tensor w "states"%string update;;
      cell <- getattr_module w' "cell"%string;;
      Ok (w', layer_run cell memory)
  else
    match ring_buffer_size_in_time_dim w with
    | Some (S _ as r) =>
        states <- getattr_tensor w "states"%string;;
        memory <- cat_time states input;;
        let state_update := last_time memory r in
        update <- zero_add states state_update;;
        w' <- setattr_tensor w "states"%string update;;
        cell <- getattr_module w' "cell"%string;;
        Ok (w', layer_run cell state_update)
    | _ =>
        cell <- getattr_module w "cell"%string;;
        Ok (w, layer_run cell input)
    end.

(** [StreamWrapper.forward] once [self._build_states(inputs)] has
    returned at its first line ([self.built] is true), for the
    internal-state mode. *)
Definition forward_built_internal (w : Wrapper) (input : Tensor) : Result (Wrapper * Tensor) :=
  if built w then
    match mode w with
    | STREAM_INTERNAL_STATE_INFERENCE => streaming_internal_state w input
    | _ => Err ValueError
    end
  else Err ValueError.

(** The state [_build_states] leaves in internal-state mode: [built] set
    and [states] registered as an [nn.Parameter] of zeros. *)
Definition with_built_states (w : Wrapper) (states : Tensor) : Wrapper :=
  mkWrapper (inner_module w) (inference_batch_size w) (mode w) (pad_time_dim w)
    (state_shape w) (ring_buffer_size_in_time_dim w) (samplewise_inference w)
    (stride w) true (dict_set (_parameters w) "states"%string states) (tensor_attrs w).

End StreamWrap.

(** ** stream_wrapper.py: [StreamWrapper.forward] in every mode *)
Module StreamWrapForward.
Import StreamWrap.

Definition is_global_time_dim_op (l : Layer) : bool :=
  match l with
  | GlobalTimeDimOp _ => true
  | _ => false
  end.

(** Python truth of [self.pad_time_dim] ([None] or a string). *)
Definition pad_truthy (p : option string) : bool :=
  match p with
  | Some s => negb (String.eqb s "")
  | None => false
  end.

(** Python truth of [self.ring_buffer_size_in_time_dim] ([None] or an int). *)
Definition ring_truthy (r : option nat) : bool :=
  match r with
  | Some (S _) => true
  | _ => false
  end.

(** [StreamWrapper._non_streaming]: a truthy [pad_time_dim] with a global
    time-dim op raises [ValueError]; otherwise line 313 reads
    [input.shape.rank], and [torch.Size] has no attribute [rank]. *)
Definition non_streaming (w : Wrapper) (input : Tensor) : Result Tensor :=
  if pad_truthy (pad_time_dim w) && is_global_time_dim_op (inner_module w)
  then Err ValueError
  else Err AttributeError.

(** [StreamWrapper.forward] from line 151 on, i.e. after
    [self._build_states] has returned, whatever state it left.
    In external-state mode with a ring buffer, line 158 first reads
    [self.input_state] ([AttributeError] when no [_build_states] has set
    it; the one it sets with a ring buffer is a tensor of zeros), then
    passes it positionally to [_streaming_external_state], whose [state]
    parameter is keyword-only: [TypeError] before its body runs. *)
Definition forward_dispatch (w : Wrapper) (input : Tensor) : Result (Wrapper * Tensor) :=
  match mode w with
  | STREAM_INTERNAL_STATE_INFERENCE => streaming_internal_state w input
  | STREAM_EXTERNAL_STATE_INFERENCE =>
      if ring_truthy (ring_buffer_size_in_time_dim w) then
        input_state <- getattr_tensor w "input_state"%string;;
        Err TypeError
      else
        cell <- getattr_module w "cell"%string;;
        Ok (w, layer_run cell input)
  | TRAINING | NON_STREAM_INFERENCE =>
      output <- non_streaming w input;;
      Ok (w, output)
  end.

End StreamWrapForward.

(** ** punctuate_capitalize_nmt.py *)
Module PunctNMT.

(** [str.split()] with no argument: runs of whitespace separate words; a
    character is a code point below 256, and [str.isspace] holds for
    [\t \n \x0b \x0c \r] (9-13), the separators [\x1c-\x1f] (28-31), the
    space (32), [\x85] (133) and [\xa0] (160). *)
Definition is_py_space (c : ascii) : bool :=
  let n := nat_of_ascii c in
  ((9 <=? n) && (n <=? 13)) || ((28 <=? n) && (n <=? 32)) || (n =? 133) || (n =? 160).

(** [string_of_rev cs acc]: the characters of the reversed list [cs] before [acc]. *)
Fixpoint string_of_rev (cs : list ascii) (acc : string) : string :=
  match cs with
  | [] => acc
  | c :: cs' => string_of_rev cs' (String c acc)
  end.

Fixpoint split_go (s : string) (cur : list ascii) : list string :=
  match s with
  | EmptyString =>
      match cur with [] => [] | _ => [string_of_rev cur EmptyString] end
  | String c s' =>
      if is_py_space c then
        match cur with
        | [] => split_go s' []
        | _ => string_of_rev cur EmptyString :: split_go s' []
        end
      else split_go s' (c :: cur)
  end.

Definition py_split (s : string) : list string := split_go s [].

(** [' '.join(ws)]. *)
Definition join_space (ws : list string) : string := String.concat (String " " EmptyString) ws.

(** *** [split_into_segments] *)

Record SegState := mkSegState {
  segments : list string;
  query_indices : list nat;
  start_word_i : list nat;
  segment_start : nat
}.

(** The [while] loop of one query. [fuel] bounds the iterations; [None]
    means the loop does not stop (it runs forever when [step = 0] and the
    guard holds). *)
Fixpoint while_segments (fuel : nat) (words : list string)
    (q_i max_seq_length step : nat) (st : SegState) : option SegState :=
  match fuel with
  | 0 => None
  | S fuel' =>
      if segment_start st + max_seq_length <? List.length words then
        let seg := join_space (firstn max_seq_length (skipn (segment_start st) words)) in
        while_segments fuel' words q_i max_seq_length step
          (mkSegState (segments st ++ [seg]) (query_indices st ++ [q_i])
             (start_word_i st ++ [segment_start st]) (segment_start st + step))
      else Some st
  end.

(** [for q_i, query in enumerate(texts)]; [segment_start] is the single
    variable set to 0 before this loop. *)
Fixpoint queries_loop (texts : list string) (q_i max_seq_length step : nat)
    (st : SegState) : option SegState :=
  match texts with
  | [] => Some st
  | query :: texts' =>
      let words := py_split query in
      match while_segments (S (List.length words)) words q_i max_seq_length step st with
      | None => None
      | Some st' => queries_loop texts' (S q_i) max_seq_length step st'
      end
  end.

Definition split_into_segments (texts : list string) (max_seq_length step : nat)
    : option (list string * list nat * list nat) :=
  match queries_loop texts 0 max_seq_length step (mkSegState [] [] [] 0) with
  | Some st => Some (segments st, query_indices st, start_word_i st)
  | None => None
  end.

(** *** [update_label_counter] and [select_best_label] *)

(** A vote dict [label -> [count, score]] in insertion order. *)
Definition Votes := list (string * (Z * Z)).

Fixpoint lookup_vote (d : Votes) (k : string) : option (Z * Z) :=
  match d with
  | [] => None
  | (k', v) :: d' => if String.eqb k k' then Some v else lookup_vote d' k
  end.

Fixpoint set_vote (d : Votes) (k : string) (v : Z * Z) : Votes :=
  match d with
  | [] => [(k, v)]
  | (k', v') :: d' => if String.eqb k k' then (k', v) :: d' else (k', v') :: set_vote d' k v
  end.

Definition update_label_counter (counter : Votes) (lbl : string)
    (num_words_in_segment word_ind_in_segment : Z) : Votes :=
  let w := Z.min (word_ind_in_segment + 1) (num_words_in_segment - word_ind_in_segment - 1) in
  match lookup_vote counter lbl with
  | Some (c, s) => set_vote counter lbl (c + 1, s + w)%Z
  | None => set_vote counter lbl (1, w)%Z
  end.

(** Python's [sorted(l, key=key)]: a stable sort by ascending key. The
    output of a stable sort is determined by the keys, so this insertion
    sort returns what Timsort returns. Float keys are modelled by their
    exact rational values. *)
Fixpoint insert_stable {A : Type} (key : A -> Q) (x : A) (l : list A) : list A :=
  match l with
  | [] => [x]
  | y :: l' => if Qle_bool (key x) (key y) then x :: l else y :: insert_stable key x l'
  end.

Definition py_sorted {A : Type} (key : A -> Q) (l : list A) : list A :=
  fold_right (insert_stable key) [] l.

Definition count_of (x : string * (Z * Z)) : Z := fst (snd x).
Definition score_of (x : string * (Z * Z)) : Z := snd (snd x).

(** [select_best_label]; the first key, [-score / count], raises
    [ZeroDivisionError] on a zero count. *)
Definition select_best_label (votes : Votes) : Result string :=
  if existsb (fun x => Z.eqb (count_of x) 0) votes then Err ZeroDivisionError else
  let votes := py_sorted (fun x => (inject_Z (- score_of x) / inject_Z (count_of x))%Q) votes in
  let votes := py_sorted (fun x => inject_Z (- count_of x)) votes in
  match votes with
  | [] => Err IndexError
  | x :: _ => Ok (fst x)
  end.

(** The counter after [update_label_counter(counter, lbl, n, i)] has been
    called for each [(lbl, n, i)] in turn on a fresh [{}]. *)
Definition accumulate (updates : list (string * Z * Z)) : Votes :=
  fold_left (fun counter u => update_label_counter counter (fst (fst u)) (snd (fst u)) (snd u))
    updates [].

End PunctNMT.

(** ** punctuate_capitalize_nmt.py: vote collection, label application and
    label-length adjustment *)
Module PunctNMTLabels.
Import PunctNMT.

(** *** Python string and list operations *)

(** [needle in hay] for strings: a substring test. *)
Fixpoint py_str_in (needle hay : string) : bool :=
  String.prefix needle hay ||
  match hay with
  | EmptyString => false
  | String _ hay' => py_str_in needle hay'
  end.

(** [s.split(sep)] for a non-empty [sep]: the pieces between the
    occurrences of [sep] found from left to right without overlap; [skip]
    counts the characters of a matched [sep] still to drop. *)
Fixpoint split_sep_go (sep s : string) (skip : nat) (cur : list ascii) : list string :=
  match s with
  | EmptyString => [string_of_rev cur EmptyString]
  | String c s' =>
      match skip with
      | S k => split_sep_go sep s' k cur
      | 0 =>
          if String.prefix sep s
          then string_of_rev cur EmptyString :: split_sep_go sep s' (String.length sep - 1) []
          else split_sep_go sep s' 0 (c :: cur)
      end
  end.

(** [s.split(sep)]: an empty separator raises [ValueError]. *)
Definition py_str_split (s sep : string) : Result (list string) :=
  if String.eqb sep EmptyString then Err ValueError else Ok (split_sep_go sep s 0 []).

(** The position [i] designates in a sequence of length [n]: negative
    indices count from the end; [None] is an [IndexError]. *)
Definition py_index (n : nat) (i : Z) : option nat :=
  if (0 <=? i)%Z && (i <? Z.of_nat n)%Z then Some (Z.to_nat i)
  else if (- Z.of_nat n <=? i)%Z && (i <? 0)%Z then Some (Z.to_nat (Z.of_nat n + i))
  else None.

(** [s[i]]. *)
Definition py_str_index (s : string) (i : Z) : Result ascii :=
  match py_index (String.length s) i with
  | Some n => match String.get n s with Some c => Ok c | None => Err IndexError end
  | None => Err IndexError
  end.

(** [s[:stop]]. *)
Definition py_slice_to (s : string) (stop : Z) : string :=
  let n := Z.of_nat (String.length s) in
  let k := if (stop <? 0)%Z then Z.max 0 (n + stop) else Z.min stop n in
  substring 0 (Z.to_nat k) s.

(** [l[i]] for a list and a non-negative index. *)
Definition list_get {A : Type} (l : list A) (i : nat) : Result A :=
  match nth_error l i with Some x => Ok x | None => Err IndexError end.

Fixpoint list_set {A : Type} (l : list A) (n : nat) (x : A) : list A :=
  match l, n with
  | [], _ => []
  | _ :: l', 0 => x :: l'
  | y :: l', S n' => y :: list_set l' n' x
  end.


(** [len(re.compile(f"[{caps}]").findall(s))] (or with the group
    [f"([{caps}])"]): the characters of [s] found in [caps], for a label
    string of ASCII letters and digits, as the script's [OuU]. *)
Definition class_count (caps s : string) : nat :=
  List.length (filter (fun c => py_str_in (String c EmptyString) caps) (list_ascii_of_string s)).

Definition is_ascii_alnum (c : ascii) : bool :=
  let n := nat_of_ascii c in
  ((48 <=? n) && (n <=? 57)) || ((65 <=? n) && (n <=? 90)) || ((97 <=? n) && (n <=? 122)).

(** The label strings [class_count] describes. *)
Definition plain_labels (caps : string) : bool :=
  negb (String.eqb caps EmptyString) && forallb is_ascii_alnum (list_ascii_of_string caps).





(** *** [get_label_votes] *)

Section Votes.
Variable capitalization_labels : string.
Variables step margin : Z.




(** *** [apply_autoregressive_labels] *)




End Votes.

(** *** [adjust_predicted_labels_length] *)

(** The [while i > num_words] loop. Each turn moves [pos] one step to the
    left; after [2 * len(labels)] turns [pos] is [-len(labels) - 1], where
    [labels[pos]] raises [IndexError]; [n] counts the turns left. *)
Fixpoint trunc_loop (labels caps : string) (num_words : Z) (n : nat) (i pos : Z) : Result Z :=
  if (num_words <? i)%Z then
    match n with
    | 0 => Err IndexError
    | S n' =>
        c <- py_str_index labels pos;;
        let i' := if py_str_in (String c EmptyString) caps then (i - 1)%Z else i in
        trunc_loop labels caps num_words n' i' (pos - 1)
    end
  else Ok pos.

(** The body of the loop for one [(segment, labels)] pair. *)
Definition adjust_one (capitalization_labels segment labels : string) : Result string :=
  let num_words := Z.of_nat (List.length (py_split segment)) in
  let num_word_labels := Z.of_nat (class_count capitalization_labels segment) in
  if (num_word_labels <? num_words)%Z then
    last <- py_str_index labels (-1);;
    if Ascii.eqb last " "%char then Ok labels
    else
      c0 <- py_str_index capitalization_labels 0;;
      Ok (labels ++ " " ++ String.concat "" (repeat (String c0 " ")
                                      (Z.to_nat (num_words - num_word_labels))))%string
  else if (num_words <? num_word_labels)%Z then
    pos <- trunc_loop labels capitalization_labels num_words (2 * String.length labels)
             num_word_labels (Z.of_nat (String.length labels) - 1);;
    Ok (py_slice_to labels (pos + 1))
  else Ok labels.

Fixpoint adjust_predicted_labels_length (segments autoregressive_labels : list string)
    (capitalization_labels : string) : Result (list string) :=
  match segments, autoregressive_labels with
  | segment :: segments', labels :: labels' =>
      l <- adjust_one capitalization_labels segment labels;;
      rest <- adjust_predicted_labels_length segments' labels' capitalization_labels;;
      Ok (l :: rest)
  | _, _ => Ok []
  end.

End PunctNMTLabels.

(** ** verbalizers/punctuation.py *)
Module PunctFst.

(** A transducer as a relation computed by a list of successes: on an
    input it returns every pair (output, unread rest of the input). *)
Definition Trans := string -> list (string * string).

Fixpoint strip_prefix (p s : string) : option string :=
  match p, s with
  | EmptyString, _ => Some s
  | String c p', String d s' => if Ascii.eqb c d then strip_prefix p' s' else None
  | String _ _, EmptyString => None
  end.

(** The acceptor of a literal string. *)
Definition accept_lit (lit : string) : Trans :=
  fun i => match strip_prefix lit i with
           | Some r => [(lit, r)]
           | None => []
           end.

(** The acceptor of one character of a class. *)
Definition accept_char (P : ascii -> bool) : Trans :=
  fun i => match i with
           | String c r => if P c then [(String c EmptyString, r)] else []
           | EmptyString => []
           end.

(** [pynini.closure(P)] of a character class: zero or more characters. *)
Fixpoint closure_char (P : ascii -> bool) (i : string) : list (string * string) :=
  (EmptyString, i) ::
  match i with
  | String c r =>
      if P c then map (fun orr => (String c (fst orr), snd orr)) (closure_char P r) else []
  | EmptyString => []
  end.

(** Concatenation [f + g]. *)
Definition cat (f g : Trans) : Trans :=
  fun i => flat_map (fun o1r1 => map (fun o2r2 => (String.append (fst o1r1) (fst o2r2), snd o2r2)) (g (snd o1r1)))
                    (f i).

(** [pynini.closure(P, 1)]: one or more characters. *)
Definition closure_plus (P : ascii -> bool) : Trans := cat (accept_char P) (closure_char P).

(** [pynutil.delete(f)]: accept what [f] accepts, output nothing. *)
Definition delete_trans (f : Trans) : Trans :=
  fun i => map (fun orr => (EmptyString, snd orr)) (f i).

Definition delete (lit : string) : Trans := delete_trans (accept_lit lit).

(** The outputs of a complete transduction of [i]. *)
Definition transduce (f : Trans) (i : string) : list string :=
  map fst (filter (fun orr => String.eqb (snd orr) EmptyString) (f i)).

Definition quote : ascii := "034"%char.
Definition rbrace : ascii := "125"%char.

(** Modelled from the spec: the module [graph_utils] ([NEMO_CHAR],
    [NEMO_NOT_QUOTE], [delete_space]) is not among the sources; following
    the names, [NEMO_CHAR] is any character, [NEMO_NOT_QUOTE] any character
    but the double quote, and [delete_space] deletes a run (possibly
    empty) of white space (space, tab, line feed, carriage return).
    Characters are modelled as ASCII. *)
Definition NEMO_CHAR (c : ascii) : bool := true.
Definition NEMO_NOT_QUOTE (c : ascii) : bool := negb (Ascii.eqb c quote).
Definition NEMO_WHITE_SPACE (c : ascii) : bool :=
  let n := nat_of_ascii c in (n =? 32) || (n =? 9) || (n =? 10) || (n =? 13).
Definition delete_space : Trans := delete_trans (closure_char NEMO_WHITE_SPACE).

(** [PunctuationFst().fst] ([optimize] does not change the relation). *)
Definition PunctuationFst : Trans :=
  cat (cat (cat (cat (cat
    (delete "name:"%string)
    delete_space)
    (delete (String quote EmptyString)))
    (closure_plus NEMO_NOT_QUOTE))
    (delete (String quote " pause_length"%string)))
    (delete_trans (closure_char (fun c => NEMO_CHAR c && negb (Ascii.eqb c rbrace)))).

End PunctFst.

(** ** tsvad_models.py: [MultiBinaryAcc] and [ClusterEmbedding.get_uniq_id] *)
Module TsVadMetric.
Import PunctNMTLabels.

(** A rank-3 tensor [batch x time x class]: its shape and its entries. *)
Record Tensor3 := mkTensor3 { d0 : nat; d1 : nat; d2 : nat; elem : nat -> nat -> nat -> Q }.

(** [x[:, :n, :]]. *)
Definition slice_time3 (x : Tensor3) (n : nat) : Tensor3 :=
  mkTensor3 (d0 x) (Nat.min n (d1 x)) (d2 x) (elem x).

(** [x.round().bool()] of one entry: [torch.round] rounds half to even, so
    the result is non-zero exactly when [|x| > 1/2]. *)
Definition round_bool (x : Q) : bool := negb (Qle_bool (Qabs x) (1 # 2)).

(** Broadcasting one dimension: equal sizes, or one of them [1]. *)
Definition bdim (a b : nat) : option nat :=
  if a =? b then Some a else if a =? 1 then Some b else if b =? 1 then Some a else None.

(** The index of an operand along a dimension of size [dim] it is broadcast from. *)
Definition bidx (dim i : nat) : nat := if dim =? 1 then 0 else i.

Definition indices3 (a b c : nat) : list (nat * nat * nat) :=
  flat_map (fun i => flat_map (fun j => map (fun k => (i, j, k)) (seq 0 c)) (seq 0 b)) (seq 0 a).

(** [torch.sum(f(x.round().bool()))]. *)
Definition count_where (x : Tensor3) (f : bool -> bool) : Z :=
  Z.of_nat (List.length (filter (fun ijk => let '(i, j, k) := ijk in f (round_bool (elem x i j k)))
                           (indices3 (d0 x) (d1 x) (d2 x)))).

(** [torch.sum(f(p.round().bool(), t.round().bool()))] over the broadcast
    shape; shapes that do not broadcast raise [RuntimeError]. *)
Definition count_pairs (p t : Tensor3) (f : bool -> bool -> bool) : Result Z :=
  match bdim (d0 p) (d0 t), bdim (d1 p) (d1 t), bdim (d2 p) (d2 t) with
  | Some a, Some b, Some c =>
      Ok (Z.of_nat (List.length (filter (fun ijk => let '(i, j, k) := ijk in
            f (round_bool (elem p (bidx (d0 p) i) (bidx (d1 p) j) (bidx (d2 p) k)))
              (round_bool (elem t (bidx (d0 t) i) (bidx (d1 t) j) (bidx (d2 t) k))))
            (indices3 a b c))))
  | _, _, _ => Err RuntimeError
  end.

(** The counters of a [MultiBinaryAcc]; [counts_are_tensors] is false while
    they are still the Python ints [0] set by [__init__]. *)
Record MBAState := mkMBAState {
  correct_counts_k : Z;
  total_counts_k : Z;
  target_true : Z;
  predicted_true : Z;
  true_positive_count : Z;
  false_positive_count : Z;
  false_negative_count : Z;
  positive_count : Z;
  counts_are_tensors : bool
}.

(** [MultiBinaryAcc.__init__]. *)
Definition MultiBinaryAcc_init : MBAState := mkMBAState 0 0 0 0 0 0 0 0 false.

(** [MultiBinaryAcc.update]: line 133 raises before any counter changes
    when the shapes do not broadcast. *)
Definition MultiBinaryAcc_update (st : MBAState) (preds targets : Tensor3) : Result MBAState :=
  let min_len := Nat.min (d1 preds) (d1 targets) in
  let preds := slice_time3 preds min_len in
  let targets := slice_time3 targets min_len in
  tp <- count_pairs preds targets (fun p t => Bool.eqb p t && p);;
  fp <- count_pairs preds targets (fun p t => negb (Bool.eqb p t) && p);;
  fn <- count_pairs preds targets (fun p t => negb (Bool.eqb p t) && negb p);;
  correct <- count_pairs preds targets (fun p t => Bool.eqb p t);;
  Ok (mkMBAState
        (correct_counts_k st + correct)
        (total_counts_k st + Z.of_nat (d0 targets * d1 targets * d2 targets))
        (target_true st + count_where targets (fun t => t))
        (predicted_true st + count_where preds negb)
        (true_positive_count st + tp)
        (false_positive_count st + fp)
        (false_negative_count st + fn)
        (count_where preds (fun p => p))
        true).

(** Successive [update] calls. *)
Fixpoint run_updates (st : MBAState) (batches : list (Tensor3 * Tensor3)) : Result MBAState :=
  match batches with
  | [] => Ok st
  | (p, t) :: batches' => st' <- MultiBinaryAcc_update st p t;; run_updates st' batches'
  end.

(** Float values of tensor arithmetic: finite, infinite or NaN (a zero is
    [+0], as every denominator below). *)
Inductive FVal := Fin (q : Q) | PosInf | NegInf | NaN.

Definition qpos (a : Q) : bool := negb (Qle_bool a 0).

Definition fadd (x y : FVal) : FVal :=
  match x, y with
  | NaN, _ | _, NaN => NaN
  | PosInf, NegInf | NegInf, PosInf => NaN
  | PosInf, _ | _, PosInf => PosInf
  | NegInf, _ | _, NegInf => NegInf
  | Fin a, Fin b => Fin (a + b)
  end.

Definition inf_of (pos : bool) : FVal := if pos then PosInf else NegInf.

Definition fmul (x y : FVal) : FVal :=
  match x, y with
  | NaN, _ | _, NaN => NaN
  | Fin a, Fin b => Fin (a * b)
  | Fin a, PosInf | PosInf, Fin a =>
      if Qeq_bool a 0 then NaN else inf_of (qpos a)
  | Fin a, NegInf | NegInf, Fin a =>
      if Qeq_bool a 0 then NaN else inf_of (negb (qpos a))
  | PosInf, PosInf | NegInf, NegInf => PosInf
  | _, _ => NegInf
  end.

Definition fdiv (x y : FVal) : FVal :=
  match x, y with
  | NaN, _ | _, NaN => NaN
  | Fin a, Fin b =>
      if Qeq_bool b 0 then (if Qeq_bool a 0 then NaN else inf_of (qpos a)) else Fin (a / b)
  | Fin _, _ => Fin 0
  | PosInf, Fin b => inf_of (Qle_bool 0 b)
  | NegInf, Fin b => inf_of (negb (Qle_bool 0 b))
  | _, _ => NaN
  end.

Definition is_nan (x : FVal) : bool := match x with NaN => true | _ => false end.

Definition F (z : Z) : FVal := Fin (inject_Z z).

(** [MultiBinaryAcc.compute], its return value: on the Python ints of a
    fresh metric [0 / (0 + 0)] raises [ZeroDivisionError]; on tensors the
    divisions follow the float rules. *)
Definition MultiBinaryAcc_compute (st : MBAState) : Result FVal :=
  if negb (counts_are_tensors st) then Err ZeroDivisionError
  else
    let tp := true_positive_count st in
    let precision := fdiv (F tp) (F (tp + false_positive_count st)) in
    let recall := fdiv (F tp) (F (tp + false_negative_count st)) in
    let f1_score := fdiv (fmul (fmul (F 2) precision) recall) (fadd precision recall) in
    Ok (if is_nan f1_score then F (-1) else f1_score).

(** [list[i]] with a Python index. *)
Definition list_index {A : Type} (l : list A) (i : Z) : Result A :=
  match py_index (List.length l) i with
  | Some n => list_get l n
  | None => Err IndexError
  end.

(** [ClusterEmbedding.get_uniq_id]. *)
Definition get_uniq_id (rttm_path : string) : Result string :=
  parts <- py_str_split rttm_path "/"%string;;
  base <- list_index parts (-1);;
  pieces <- py_str_split base ".rttm"%string;;
  list_index pieces 0.

End TsVadMetric.

(** * Proofs *)

Lemma Qdiv_1_r_eq (v : Q) : (v / 1)%Q = v.
Proof.
  destruct v as [n d]. unfold Qdiv, Qmult. simpl.
  rewrite Z.mul_1_r, Pos.mul_1_r. reflexivity.
Qed.

Module PromptTableFacts.
Import PromptTable.

Lemma embedding_lookup_seq (l pre : Table) :
  embedding_lookup (pre ++ l) (seq (List.length pre) (List.length l)) = Ok l.
Proof.
  revert pre. induction l as [|a l IH]; intros pre; [reflexivity|].
  simpl. rewrite nth_error_app2 by lia. rewrite Nat.sub_diag. simpl.
  specialize (IH (pre ++ [a])). rewrite <- app_assoc in IH. simpl in IH.
  rewrite length_app in IH. simpl in IH. rewrite Nat.add_1_r in IH.
  rewrite IH. reflexivity.
Qed.

Lemma embedding_lookup_all (l : Table) :
  embedding_lookup l (seq 0 (List.length l)) = Ok l.
Proof. exact (embedding_lookup_seq l []). Qed.

Lemma mapi_from_id {A : Type} (f : nat -> A -> A) (l : list A) (k : nat) :
  (forall i x, f i x = x) -> mapi_from k f l = l.
Proof.
  intros Hf. revert k. induction l as [|x l IH]; intros k; simpl; [reflexivity|].
  rewrite Hf, IH. reflexivity.
Qed.

Lemma zeros_table_shape (rows cols : nat) : has_shape (zeros_table rows cols) rows cols.
Proof.
  unfold has_shape, zeros_table. split.
  - apply repeat_length.
  - apply Forall_forall. intros r Hr. apply repeat_spec in Hr. subst. apply repeat_length.
Qed.

Section WithBernoulli.
Variable bernoulli : Q -> nat -> nat -> bool.
(** A Bernoulli draw with keep probability 1 always keeps. *)
Hypothesis bernoulli_keep_one : forall i j, bernoulli 1%Q i j = true.

Lemma dropout_zero (training : bool) (x : Table) : dropout bernoulli 0%Q training x = x.
Proof.
  unfold dropout. destruct training; [|reflexivity].
  apply mapi_from_id. intros i r. apply mapi_from_id. intros j v.
  change (1 - 0)%Q with 1%Q. rewrite bernoulli_keep_one. apply Qdiv_1_r_eq.
Qed.

(** C7 (corrected): with dropout probability 0, an [init_method] that
    keeps the shape of the weight it fills, and, for text initialisation,
    word-embedding weights of shape [(total_soft_tokens, hidden_size)],
    [forward] returns the whole embedding table, of that shape, row [i] of
    the output being row [i] of the table, in training and in eval mode. *)
Theorem forward_returns_full_table (init_from_prompt_text : bool)
    (hidden_size total_soft_tokens : nat) (word_embedding_weights : Table)
    (init_method : Table -> Table) (training : bool) :
  (forall t, has_shape t total_soft_tokens hidden_size ->
             has_shape (init_method t) total_soft_tokens hidden_size) ->
  (init_from_prompt_text = true ->
   has_shape word_embedding_weights total_soft_tokens hidden_size) ->
  let e := PromptEmbedding_init init_from_prompt_text hidden_size total_soft_tokens
             word_embedding_weights init_method 0%Q training in
  forward bernoulli e = Ok (prompt_embeddings_weight e) /\
  has_shape (prompt_embeddings_weight e) total_soft_tokens hidden_size /\
  (forall i, i < total_soft_tokens ->
     exists row, forward bernoulli e = Ok (prompt_embeddings_weight e) /\
                 nth_error (prompt_embeddings_weight e) i = Some row /\
                 List.length row = hidden_size).
Proof.
  intros Hinit Hwe e.
  assert (Hshape : has_shape (prompt_embeddings_weight e) total_soft_tokens hidden_size).
  { subst e. unfold PromptEmbedding_init. simpl.
    destruct init_from_prompt_text; [apply Hwe; reflexivity|].
    apply Hinit, zeros_table_shape. }
  assert (Hind : indices e = seq 0 total_soft_tokens) by reflexivity.
  assert (Hp : embedding_dropout_p e = 0%Q) by reflexivity.
  clearbody e.
  assert (Hfw : forward bernoulli e = Ok (prompt_embeddings_weight e)).
  { unfold forward. rewrite Hind, Hp. destruct Hshape as [Hlen _]. rewrite <- Hlen.
    rewrite embedding_lookup_all. simpl.
    rewrite dropout_zero. reflexivity. }
  split; [exact Hfw|]. split; [exact Hshape|].
  intros i Hi. destruct Hshape as [Hlen Hrows].
  destruct (nth_error (prompt_embeddings_weight e) i) as [row|] eqn:Hn.
  - exists row. split; [exact Hfw|]. split; [reflexivity|].
    rewrite Forall_forall in Hrows. apply Hrows. eapply nth_error_In; exact Hn.
  - apply nth_error_None in Hn. unfold Row, Table in *. exfalso. lia.
Qed.
End WithBernoulli.

Lemma forward_returns_full_table_witness :
  let e := PromptEmbedding_init false 2 3 [] (fun t => t) 0%Q true in
  forward (fun _ _ _ => true) e = Ok (zeros_table 3 2).
Proof.
  intros e.
  destruct (forward_returns_full_table (fun _ _ _ => true) (fun _ _ => eq_refl)
              false 2 3 [] (fun t => t) true (fun t H => H)
              (fun H => match Bool.diff_false_true H with end)) as [Hfw _].
  exact Hfw.
Defined.

(** C7, counterexample: the text-initialised weight replaces the
    [total_soft_tokens x hidden_size] table as given, so with
    [total_soft_tokens = 3] and a word-embedding weight of 2 rows, [forward]
    looks up index 2 of a 2-row table and raises [IndexError] instead of
    returning a [(3, hidden_size)] table: first with the identity as
    [init_method] in training mode, then for every [init_method], dropout
    draw and mode. *)
Lemma forward_text_weights_short_cex :
  forward (fun _ _ _ => true)
    (PromptEmbedding_init true 1 3 [[1%Q]; [2%Q]] (fun t => t) 0%Q true)
  = Err IndexError /\
  (forall (bernoulli : Q -> nat -> nat -> bool) (init_method : Table -> Table) (training : bool),
     forward bernoulli
       (PromptEmbedding_init true 1 3 [[1%Q]; [2%Q]] init_method 0%Q training)
     = Err IndexError).
Proof. split; [|intros]; reflexivity. Qed.

(** C9: [remove_prompt] raises [NameError] for every table state and every
    task name, present or not: the bare name [prompt_table] is neither
    local, global nor builtin. *)
Theorem remove_prompt_raises_NameError (self : PromptTableState) (taskname : string) :
  remove_prompt self taskname = Err NameError.
Proof. reflexivity. Qed.

End PromptTableFacts.

Module TsVadFacts.
Import TsVad.

Lemma map_const_repeat {A B : Type} (c : B) (l : list A) :
  map (fun _ => c) l = repeat c (List.length l).
Proof. induction l as [|x l IH]; simpl; [reflexivity|]. rewrite IH. reflexivity. Qed.

(** *** [statistics.mode] *)

Lemma first_occ_in (l : list nat) (y : nat) : In y (first_occ l) <-> In y l.
Proof.
  induction l as [|x l IH]; simpl; [tauto|].
  rewrite filter_In, IH. split.
  - intros [H|[H _]]; [left; exact H|right; exact H].
  - intros [H|H]; [left; exact H|].
    destruct (Nat.eq_dec x y) as [E|E]; [left; exact E|right; split; [exact H|]].
    apply negb_true_iff, Nat.eqb_neq. congruence.
Qed.

Lemma count_nat_notin (l : list nat) (y : nat) : ~ In y l -> count_nat l y = 0.
Proof.
  unfold count_nat. intros H. induction l as [|x l IH]; simpl; [reflexivity|].
  destruct (Nat.eqb y x) eqn:E.
  - apply Nat.eqb_eq in E. subst. exfalso. apply H. left. reflexivity.
  - apply IH. intros Hy. apply H. right. exact Hy.
Qed.

Lemma fold_max_spec {A : Type} (key : A -> nat) (l : list A) (best : A) :
  let b := fold_left (fun best y => if key best <? key y then y else best) l best in
  In b (best :: l) /\ forall y, In y (best :: l) -> key y <= key b.
Proof.
  revert best. induction l as [|x l IH]; intros best; simpl.
  - split; [left; reflexivity|]. intros y [<-|[]]. lia.
  - destruct (key best <? key x) eqn:E.
    + apply Nat.ltb_lt in E. destruct (IH x) as [Hin Hmax]. split.
      * destruct Hin as [H|H]; [right; left; exact H|right; right; exact H].
      * intros y [<-|[<-|Hy]].
        -- specialize (Hmax x (or_introl eq_refl)). lia.
        -- apply Hmax. left. reflexivity.
        -- apply Hmax. right. exact Hy.
    + apply Nat.ltb_ge in E. destruct (IH best) as [Hin Hmax]. split.
      * destruct Hin as [H|H]; [left; exact H|right; right; exact H].
      * intros y [<-|[<-|Hy]].
        -- apply Hmax. left. reflexivity.
        -- specialize (Hmax best (or_introl eq_refl)). lia.
        -- apply Hmax. right. exact Hy.
Qed.

(** [mode] returns a value of the data with the largest count. *)
Lemma mode_spec (data : list nat) (x : nat) :
  mode data = Ok x -> In x data /\ forall y, count_nat data y <= count_nat data x.
Proof.
  unfold mode. destruct (first_occ data) as [|f fs] eqn:Hf; simpl; [discriminate|].
  destruct (fold_max_spec snd (map (fun x => (x, count_nat data x)) fs) (f, count_nat data f))
    as [Hin Hmax].
  destruct (fold_left _ _ _) as [b cb] eqn:Hb. intros [= <-].
  assert (Hb_in : In (b, cb) (map (fun x => (x, count_nat data x)) (f :: fs))) by exact Hin.
  apply in_map_iff in Hb_in. destruct Hb_in as [z [Hz Hzin]]. injection Hz as <- <-.
  split.
  - apply first_occ_in. rewrite Hf. exact Hzin.
  - intros y. destruct (in_dec Nat.eq_dec y data) as [Hy|Hy].
    + apply first_occ_in in Hy. rewrite Hf in Hy.
      apply (Hmax (y, count_nat data y)). apply (in_map (fun x => (x, count_nat data x))) in Hy.
      exact Hy.
    + rewrite count_nat_notin by exact Hy. lia.
Qed.

Lemma mode_ok (data : list nat) : data <> [] -> exists x, mode data = Ok x.
Proof.
  intros Hne. unfold mode. destruct (first_occ data) as [|f fs] eqn:Hf.
  - destruct data as [|d ds]; [congruence|]. simpl in Hf. discriminate.
  - simpl. destruct (fold_left _ _ _) as [b cb]. eexists. reflexivity.
Qed.

(** *** helpers on the dicts and masks *)

Lemma nodup_nat_NoDup (l : list nat) : nodup_nat l = true -> NoDup l.
Proof.
  induction l as [|x l IH]; simpl; intros H; [constructor|].
  apply andb_true_iff in H. destruct H as [Hx Hl]. constructor; [|apply IH, Hl].
  intros Hin. apply negb_true_iff in Hx.
  assert (E : existsb (Nat.eqb x) l = true)
    by (apply existsb_exists; exists x; split; [exact Hin|apply Nat.eqb_refl]).
  congruence.
Qed.

Lemma existsb_eqb_in (l : list nat) (x : nat) : existsb (Nat.eqb x) l = true <-> In x l.
Proof.
  rewrite existsb_exists. split.
  - intros [y [Hy E]]. apply Nat.eqb_eq in E. subst. exact Hy.
  - intros H. exists x. split; [exact H|apply Nat.eqb_refl].
Qed.

(** An admissible iteration order lists the values of [xs] once each. *)
Lemma set_order_ok_spec (ys xs : list nat) :
  set_order_ok ys xs = true -> NoDup ys /\ forall i, In i ys <-> In i xs.
Proof.
  unfold set_order_ok. intros H. apply andb_true_iff in H. destruct H as [H H2].
  apply andb_true_iff in H. destruct H as [H0 H1].
  split; [apply nodup_nat_NoDup, H0|]. intros i.
  rewrite forallb_forall in H1, H2. split.
  - intros Hi. apply existsb_eqb_in, H1, Hi.
  - intros Hi. apply existsb_eqb_in, H2, Hi.
Qed.

Lemma combine_in_snd {A B : Type} (a : list A) (b : list B) (y : B) :
  List.length a = List.length b -> In y b -> exists x, In (x, y) (combine a b).
Proof.
  revert b. induction a as [|x a IH]; intros [|z b] Hlen Hy; simpl in *; try lia; try contradiction.
  destruct Hy as [<-|Hy].
  - exists x. left. reflexivity.
  - destruct (IH b ltac:(lia) Hy) as [x' Hx']. exists x'. right. exact Hx'.
Qed.

Lemma masked_select_nonempty (base m : list nat) (seg : nat) :
  List.length base = List.length m -> In seg m ->
  exists sel, masked_select base m seg = Ok sel /\ sel <> [].
Proof.
  intros Hlen Hin. unfold masked_select. rewrite Hlen, Nat.eqb_refl. eexists. split; [reflexivity|].
  destruct (combine_in_snd base m seg Hlen Hin) as [x Hx].
  assert (Hf : In (x, seg) (filter (fun p => Nat.eqb (snd p) seg) (combine base m)))
    by (apply filter_In; split; [exact Hx|apply Nat.eqb_refl]).
  intros Hnil. apply (in_map fst) in Hf. rewrite Hnil in Hf. contradiction.
Qed.

Definition is_mode (sel : list nat) (x : nat) : Prop :=
  In x sel /\ forall y, count_nat sel y <= count_nat sel x.

Lemma modes_of_segments_spec (base m segs : list nat) :
  List.length base = List.length m -> (forall seg, In seg segs -> In seg m) ->
  exists new, modes_of_segments base m segs = Ok new /\
    List.length new = List.length segs /\
    forall j seg, nth_error segs j = Some seg ->
      exists sel x, masked_select base m seg = Ok sel /\ nth_error new j = Some x /\ is_mode sel x.
Proof.
  intros Hlen. induction segs as [|seg segs IH]; intros Hsegs.
  - exists []. split; [reflexivity|]. split; [reflexivity|]. intros [|j] seg' H; discriminate.
  - destruct (masked_select_nonempty base m seg Hlen (Hsegs seg (or_introl eq_refl)))
      as [sel [Hsel Hne]].
    destruct (mode_ok sel Hne) as [x Hx].
    destruct IH as [new [Hnew [Hl Hnth]]]; [intros s Hs; apply Hsegs; right; exact Hs|].
    exists (x :: new). simpl. rewrite Hsel. simpl. rewrite Hx. simpl. rewrite Hnew. simpl.
    split; [reflexivity|]. split; [rewrite Hl; reflexivity|].
    intros [|j] seg' Hj; simpl in Hj.
    + injection Hj as <-. exists sel, x. split; [exact Hsel|]. split; [reflexivity|].
      apply mode_spec, Hx.
    + apply Hnth, Hj.
Qed.

Lemma assoc_dict_set {V : Type} (d : list (string * V)) (k k' : string) (v : V) :
  assoc (dict_set d k v) k' = if String.eqb k' k then Some v else assoc d k'.
Proof.
  induction d as [|[k0 v0] d IH]; simpl.
  - reflexivity.
  - destruct (String.eqb k k0) eqn:E.
    + apply String.eqb_eq in E. subst k0. simpl. destruct (String.eqb k' k); reflexivity.
    + simpl. rewrite IH.
      destruct (String.eqb k' k0) eqn:E0, (String.eqb k' k) eqn:E1; try reflexivity.
      apply String.eqb_eq in E0, E1. subst. rewrite String.eqb_refl in E. discriminate.
Qed.

Lemma set_scale_entry_keys (d d' : list (nat * list (string * list nat))) s u v :
  set_scale_entry d s u v = Ok d' -> map fst d' = map fst d.
Proof.
  revert d'. induction d as [|[s0 inner] d IH]; intros d' H; simpl in H; [discriminate|].
  destruct (Nat.eqb s0 s).
  - injection H as <-. reflexivity.
  - destruct (set_scale_entry d s u v) as [rest|e] eqn:Hr; simpl in H; [|discriminate].
    injection H as <-. simpl. rewrite (IH rest eq_refl). reflexivity.
Qed.

Lemma set_scale_entry_ok (d : list (nat * list (string * list nat))) s u v :
  In s (map fst d) -> exists d', set_scale_entry d s u v = Ok d'.
Proof.
  induction d as [|[s0 inner] d IH]; simpl; [intros []|]. intros Hin.
  destruct (Nat.eqb s0 s) eqn:E; [eexists; reflexivity|].
  destruct Hin as [Hs|Hin]; [apply Nat.eqb_neq in E; contradiction|].
  destruct (IH Hin) as [rest Hr]. rewrite Hr. simpl. eexists. reflexivity.
Qed.

Lemma set_scale_entry_lookup (d d' : list (nat * list (string * list nat))) s u v :
  set_scale_entry d s u v = Ok d' ->
  forall s' u', lookup_labels d' s' u' =
    if Nat.eqb s' s && String.eqb u' u then Some v else lookup_labels d s' u'.
Proof.
  revert d'. induction d as [|[s0 inner] d IH]; intros d' H; simpl in H; [discriminate|].
  intros s' u'. destruct (Nat.eqb s0 s) eqn:E.
  - injection H as <-. apply Nat.eqb_eq in E. subst s0. unfold lookup_labels. simpl.
    destruct (Nat.eqb s' s) eqn:Es; simpl; [|reflexivity].
    rewrite assoc_dict_set. reflexivity.
  - destruct (set_scale_entry d s u v) as [rest|e] eqn:Hr; simpl in H; [|discriminate].
    injection H as <-. specialize (IH rest eq_refl s' u'). unfold lookup_labels in *. simpl.
    destruct (Nat.eqb s' s0) eqn:E0; [|exact IH].
    apply Nat.eqb_eq in E0. subst s'. rewrite E. reflexivity.
Qed.

Lemma coarse_scales_spec (list_set : list nat -> list nat) (sc base : list nat)
    (maps : list (nat * list nat)) (uid : string) (d : list (nat * list (string * list nat))) :
  NoDup sc -> (forall s, In s sc -> In s (map fst d)) ->
  (forall s, In s sc -> exists m, assoc_nat maps s = Some m /\ List.length base = List.length m /\
     set_order_ok (list_set m) m = true) ->
  exists d', coarse_scales list_set sc base maps uid d = Ok d' /\ map fst d' = map fst d /\
    (forall s, In s sc -> exists m new, assoc_nat maps s = Some m /\
       modes_of_segments base m (list_set m) = Ok new /\ lookup_labels d' s uid = Some new) /\
    (forall s' u', (~ In s' sc \/ u' <> uid) -> lookup_labels d' s' u' = lookup_labels d s' u').
Proof.
  revert d. induction sc as [|s sc IH]; intros d Hnd Hkeys Hmaps; simpl.
  - exists d. split; [reflexivity|]. split; [reflexivity|]. split; [intros s []|].
    intros. reflexivity.
  - inversion Hnd as [|? ? Hs_notin Hnd']; subst.
    destruct (Hmaps s (or_introl eq_refl)) as [m [Hm [Hlen Hord]]]. rewrite Hm.
    destruct (modes_of_segments_spec base m (list_set m) Hlen
                (fun seg H => proj1 (proj2 (set_order_ok_spec _ _ Hord) seg) H))
      as [new [Hnew _]].
    rewrite Hnew. simpl.
    destruct (set_scale_entry_ok d s uid new (Hkeys s (or_introl eq_refl))) as [d1 Hd1].
    rewrite Hd1. simpl.
    pose proof (set_scale_entry_keys _ _ _ _ _ Hd1) as Hk1.
    pose proof (set_scale_entry_lookup _ _ _ _ _ Hd1) as Hl1.
    destruct (IH d1 Hnd') as [d' [Hd' [Hk' [Hset Hframe]]]].
    + intros s' Hs'. rewrite Hk1. apply Hkeys. right. exact Hs'.
    + intros s' Hs'. apply Hmaps. right. exact Hs'.
    + exists d'. split; [exact Hd'|]. split; [congruence|]. split.
      * intros s' [<-|Hs'].
        -- exists m, new. split; [exact Hm|]. split; [exact Hnew|].
           rewrite Hframe by (left; exact Hs_notin). rewrite Hl1, Nat.eqb_refl, String.eqb_refl.
           reflexivity.
        -- apply Hset, Hs'.
      * intros s' u' Hc. rewrite Hframe.
        -- rewrite Hl1. destruct (Nat.eqb s' s) eqn:E1, (String.eqb u' uid) eqn:E2; try reflexivity.
           apply Nat.eqb_eq in E1. apply String.eqb_eq in E2. subst.
           destruct Hc as [Hc|Hc]; exfalso; apply Hc; [left|]; reflexivity.
        -- destruct Hc as [Hc|Hc]; [left; intros H; apply Hc; right; exact H|right; exact Hc].
Qed.

(** What [assign_labels_to_longer_segs] leaves for one session it processed. *)
Definition session_ok (list_set : list nat -> list nat)
    (out : list (nat * list (string * list nat))) (scale_n : nat)
    (base_clus_label_dict : list (string * list ClusEntry)) (uid : string)
    (maps : list (nat * list nat)) : Prop :=
  exists entries, assoc base_clus_label_dict uid = Some entries /\
    lookup_labels out (scale_n - 1) uid = Some (map label entries) /\
    forall s, s < scale_n - 1 -> exists m new, assoc_nat maps s = Some m /\
      modes_of_segments (map label entries) m (list_set m) = Ok new /\
      lookup_labels out s uid = Some new.

Lemma sessions_loop_spec (list_set : list nat -> list nat) (scale_n : nat)
    (base : list (string * list ClusEntry))
    (sessions : list (string * list (nat * list nat))) (prev : option (list nat))
    (d : list (nat * list (string * list nat))) :
  1 <= scale_n -> map fst d = seq 0 scale_n -> NoDup (map fst sessions) ->
  (forall uid maps, In (uid, maps) sessions -> exists entries, assoc base uid = Some entries /\
     forall s, s < scale_n - 1 -> exists m, assoc_nat maps s = Some m /\
       List.length m = List.length entries /\ set_order_ok (list_set m) m = true) ->
  exists out, sessions_loop list_set scale_n base sessions prev d = Ok out /\
    (forall uid maps, In (uid, maps) sessions -> session_ok list_set out scale_n base uid maps) /\
    (forall s u, ~ In u (map fst sessions) -> lookup_labels out s u = lookup_labels d s u).
Proof.
  intros Hn. revert prev d. induction sessions as [|[uid maps] rest IH];
    intros prev d Hkeys Hnd Hsess; simpl.
  - exists d. split; [reflexivity|]. split; [intros ? ? []|]. intros. reflexivity.
  - inversion Hnd as [|? ? Huid Hnd']; subst.
    destruct (Hsess uid maps (or_introl eq_refl)) as [entries [He Hm]]. rewrite He. simpl.
    replace (Nat.eqb scale_n 0) with false by (symmetry; apply Nat.eqb_neq; lia).
    destruct (set_scale_entry_ok d (scale_n - 1) uid (map label entries)) as [d1 Hd1].
    { rewrite Hkeys. apply in_seq. lia. }
    rewrite Hd1. simpl.
    pose proof (set_scale_entry_keys _ _ _ _ _ Hd1) as Hk1.
    pose proof (set_scale_entry_lookup _ _ _ _ _ Hd1) as Hl1.
    destruct (coarse_scales_spec list_set (seq 0 (scale_n - 1)) (map label entries) maps uid d1)
      as [d2 [Hd2 [Hk2 [Hset Hframe]]]].
    + apply seq_NoDup.
    + intros s Hs. rewrite Hk1, Hkeys. apply in_seq. apply in_seq in Hs. lia.
    + intros s Hs. apply in_seq in Hs. destruct (Hm s ltac:(lia)) as [m [Hm' [Hl Ho]]].
      exists m. split; [exact Hm'|]. rewrite length_map. split; [symmetry; exact Hl|exact Ho].
    + rewrite Hd2. simpl.
      destruct (IH (Some (map label entries)) d2) as [out [Hout [Hok Hfr]]].
      * congruence.
      * exact Hnd'.
      * intros u ms Hin. apply Hsess. right. exact Hin.
      * exists out. split; [exact Hout|]. split.
        -- intros u ms [Heq|Hin].
           ++ injection Heq as <- <-. exists entries. split; [exact He|]. split.
              ** rewrite Hfr by exact Huid.
                 rewrite Hframe by (left; rewrite in_seq; lia).
                 rewrite Hl1, Nat.eqb_refl, String.eqb_refl. reflexivity.
              ** intros s Hs. destruct (Hset s ltac:(apply in_seq; lia)) as [m [new [H1 [H2 H3]]]].
                 exists m, new. split; [exact H1|]. split; [exact H2|].
                 rewrite Hfr by exact Huid. exact H3.
           ++ apply Hok, Hin.
        -- intros s u Hu. simpl in Hu.
           assert (Hne : u <> uid) by (intros E; apply Hu; left; symmetry; exact E).
           rewrite Hfr by (intros H; apply Hu; right; exact H).
           rewrite Hframe by (right; exact Hne). rewrite Hl1.
           replace (String.eqb u uid) with false by (symmetry; apply String.eqb_neq; exact Hne).
           rewrite andb_false_r. reflexivity.
Qed.

Lemma set_order_ok_const (ys xs : list nat) (a : nat) :
  set_order_ok ys xs = true -> In a xs -> (forall x, In x xs -> x = a) -> ys = [a].
Proof.
  intros H Ha Hall. destruct (set_order_ok_spec ys xs H) as [Hnd Hin].
  assert (Hy : forall y, In y ys -> y = a) by (intros y Hy; apply Hall, Hin, Hy).
  destruct ys as [|y ys].
  - apply Hin in Ha. destruct Ha.
  - rewrite (Hy y (or_introl eq_refl)) in *. f_equal.
    destruct ys as [|z ys]; [reflexivity|]. exfalso.
    inversion Hnd as [|? ? Hnot _]; subst.
    apply Hnot. rewrite (Hy z (or_intror (or_introl eq_refl))). left. reflexivity.
Qed.

(** C4 (counterexample): with two scales and one session whose three base
    segments all map onto coarse segment 1, coarse segment 0 receives no
    base segment, yet the coarse label list starts with the mode of
    segment 1: entries are indexed by rank among the mapped segment
    indices, not by segment index, so an unmapped segment shifts the rest.
    The result is the same for every admissible iteration order of the set. *)
Lemma assign_labels_unmapped_segment_cex :
  assign_labels_to_longer_segs set_list_increasing 2
    [("s"%string, [mkClusEntry 0 1 3; mkClusEntry 1 2 3; mkClusEntry 2 3 4])]
    [("s"%string, [(0, [1; 1; 1])])]
  = Ok [(0, [("s"%string, [3])]); (1, [("s"%string, [3; 3; 4])])] /\
  (forall list_set : list nat -> list nat,
     set_order_ok (list_set [1; 1; 1]) [1; 1; 1] = true ->
     assign_labels_to_longer_segs list_set 2
       [("s"%string, [mkClusEntry 0 1 3; mkClusEntry 1 2 3; mkClusEntry 2 3 4])]
       [("s"%string, [(0, [1; 1; 1])])]
     = Ok [(0, [("s"%string, [3])]); (1, [("s"%string, [3; 3; 4])])]) /\
  masked_select [3; 3; 4] [1; 1; 1] 0 = Ok [] /\
  masked_select [3; 3; 4] [1; 1; 1] 1 = Ok [3; 3; 4] /\ mode [3; 3; 4] = Ok 3.
Proof.
  split; [reflexivity|]. split; [|repeat split; reflexivity].
  intros list_set H.
  assert (E : list_set [1; 1; 1] = [1]).
  { apply (set_order_ok_const _ [1; 1; 1] 1 H); [left; reflexivity|].
    intros x [<-|[<-|[<-|[]]]]; reflexivity. }
  unfold assign_labels_to_longer_segs. cbn -[modes_of_segments]. rewrite E. reflexivity.
Qed.

(** C4 (amended): when every session id is distinct, present in the
    base-scale dict, and has a mapping of the base length for every
    coarser scale, [assign_labels_to_longer_segs] succeeds, for every
    iteration order [list_set] of the mapping sets that lists each mapped
    index once; the base scale keeps the base labels, and the list for a
    coarser scale has one entry per distinct mapped segment index, in the
    iteration order of [set(mapping)], that entry being a most frequent
    base label of the base segments mapped onto that segment. So entry [j]
    belongs to segment [j] when that order is [0 .. k-1]. *)
Theorem assign_labels_to_longer_segs_modes (list_set : list nat -> list nat) (scale_n : nat)
    (base_clus_label_dict : list (string * list ClusEntry))
    (sessions : list (string * list (nat * list nat))) :
  1 <= scale_n -> NoDup (map fst sessions) ->
  (forall uid maps, In (uid, maps) sessions ->
     exists entries, assoc base_clus_label_dict uid = Some entries /\
     forall s, s < scale_n - 1 -> exists m, assoc_nat maps s = Some m /\
       List.length m = List.length entries /\ set_order_ok (list_set m) m = true) ->
  exists out, assign_labels_to_longer_segs list_set scale_n base_clus_label_dict sessions = Ok out /\
  forall uid maps, In (uid, maps) sessions ->
    exists entries, assoc base_clus_label_dict uid = Some entries /\
    lookup_labels out (scale_n - 1) uid = Some (map label entries) /\
    forall s, s < scale_n - 1 -> exists m new,
      assoc_nat maps s = Some m /\ lookup_labels out s uid = Some new /\
      List.length new = List.length (list_set m) /\
      (forall j seg, nth_error (list_set m) j = Some seg ->
         exists sel x, masked_select (map label entries) m seg = Ok sel /\
           nth_error new j = Some x /\ is_mode sel x) /\
      (forall k, list_set m = seq 0 k -> forall j, j < k ->
         exists sel x, masked_select (map label entries) m j = Ok sel /\
           nth_error new j = Some x /\ is_mode sel x).
Proof.
  intros Hn Hnd Hsess. unfold assign_labels_to_longer_segs.
  destruct (sessions_loop_spec list_set scale_n base_clus_label_dict sessions None
              (map (fun scale_index => (scale_index, [])) (seq 0 scale_n)) Hn)
    as [out [Hout [Hok _]]].
  - rewrite map_map. apply map_id.
  - exact Hnd.
  - exact Hsess.
  - exists out. split; [exact Hout|]. intros uid maps Hin.
    destruct (Hok uid maps Hin) as [entries [He [Hbase Hcoarse]]].
    exists entries. split; [exact He|]. split; [exact Hbase|].
    intros s Hs. destruct (Hcoarse s Hs) as [m [new [Hm [Hnew Hlook]]]].
    destruct (Hsess uid maps Hin) as [entries' [He' Hm']].
    rewrite He in He'. injection He' as <-.
    destruct (Hm' s Hs) as [m' [Hm'' [Hlen Hord]]]. rewrite Hm in Hm''. injection Hm'' as <-.
    assert (Hl : List.length (map label entries) = List.length m) by (rewrite length_map; lia).
    destruct (modes_of_segments_spec (map label entries) m (list_set m) Hl
                (fun seg H => proj1 (proj2 (set_order_ok_spec _ _ Hord) seg) H))
      as [new' [Hnew' [Hlen' Hnth]]].
    rewrite Hnew in Hnew'. injection Hnew' as <-.
    exists m, new. split; [exact Hm|]. split; [exact Hlook|]. split; [exact Hlen'|].
    split; [exact Hnth|].
    intros k Hk j Hj. apply Hnth. rewrite Hk.
    rewrite nth_error_nth' with (d := 0) by (rewrite length_seq; exact Hj).
    rewrite seq_nth by exact Hj. reflexivity.
Qed.

Lemma assign_labels_to_longer_segs_modes_witness :
  exists out, assign_labels_to_longer_segs set_list_increasing 2
    [("s"%string, [mkClusEntry 0 1 3; mkClusEntry 1 2 3; mkClusEntry 2 3 4])]
    [("s"%string, [(0, [0; 0; 1])])] = Ok out /\
  forall uid maps, In (uid, maps) [("s"%string, [(0, [0; 0; 1])])] ->
    exists entries, assoc [("s"%string, [mkClusEntry 0 1 3; mkClusEntry 1 2 3; mkClusEntry 2 3 4])] uid
      = Some entries /\
    lookup_labels out (2 - 1) uid = Some (map label entries) /\
    forall s, s < 2 - 1 -> exists m new,
      assoc_nat maps s = Some m /\ lookup_labels out s uid = Some new /\
      List.length new = List.length (set_list_increasing m) /\
      (forall j seg, nth_error (set_list_increasing m) j = Some seg ->
         exists sel x, masked_select (map label entries) m seg = Ok sel /\
           nth_error new j = Some x /\ is_mode sel x) /\
      (forall k, set_list_increasing m = seq 0 k -> forall j, j < k ->
         exists sel x, masked_select (map label entries) m j = Ok sel /\
           nth_error new j = Some x /\ is_mode sel x).
Proof.
  apply assign_labels_to_longer_segs_modes.
  - lia.
  - repeat constructor. simpl. tauto.
  - intros uid maps [Heq|[]]. injection Heq as <- <-. eexists. split; [reflexivity|].
    intros s Hs. assert (s = 0) by lia. subst s. eexists. split; [reflexivity|].
    split; [reflexivity|vm_compute; reflexivity].
Defined.

(** *** [get_clus_emb] *)

Lemma nth_replace_nth (r : list Q) (spk j : nat) (x : Q) :
  spk < List.length r -> nth j (replace_nth r spk x) 0%Q = if j =? spk then x else nth j r 0%Q.
Proof.
  revert spk j. induction r as [|y r IH]; intros spk j H; simpl in H; [lia|].
  destruct spk as [|spk], j as [|j]; simpl; try reflexivity.
  apply IH. lia.
Qed.

Lemma length_replace_nth {A : Type} (l : list A) (n : nat) (x : A) :
  List.length (replace_nth l n x) = List.length l.
Proof.
  revert n. induction l as [|y l IH]; intros [|n]; simpl; try reflexivity. rewrite IH. reflexivity.
Qed.

Lemma set_column_spec (avg : Matrix) (dim max spk : nat) (v : list Q) :
  has_shape avg dim max -> spk < max -> List.length v = dim ->
  exists avg', set_column avg max spk v = Ok avg' /\ has_shape avg' dim max /\
    forall j, column avg' j = if j =? spk then v else column avg j.
Proof.
  intros [Hrows Hcols] Hspk Hv. unfold set_column.
  apply Nat.ltb_lt in Hspk as Hspk'. rewrite Hspk'.
  replace (List.length v =? List.length avg) with true by (symmetry; apply Nat.eqb_eq; lia).
  eexists. split; [reflexivity|].
  assert (Hlen : List.length v = List.length avg) by lia. rewrite <- Hrows. clear Hv Hrows Hspk'.
  revert v Hlen. induction avg as [|r avg IH]; intros [|x v] Hlen; simpl in Hlen; try discriminate.
  - split; [split; [reflexivity|constructor]|]. intros j. simpl.
    destruct (j =? spk); reflexivity.
  - apply Forall_cons_iff in Hcols as [Hr Hcols'].
    destruct (IH Hcols' v ltac:(lia)) as [[Hl Hf] Hc]. simpl. split.
    + split; [simpl; f_equal; exact Hl|]. constructor; [|exact Hf].
      simpl. rewrite length_replace_nth. exact Hr.
    + intros j. specialize (Hc j). unfold column in *. simpl. rewrite Hc.
      rewrite nth_replace_nth by lia. destruct (j =? spk); reflexivity.
Qed.

Lemma length_mean_rows (dim : nat) (rows : Matrix) :
  rows <> [] -> Forall (fun r => List.length r = dim) rows -> List.length (mean_rows rows) = dim.
Proof.
  intros Hne Hf. unfold mean_rows. rewrite length_map, length_seq.
  destruct rows as [|r rows]; [congruence|]. apply Forall_cons_iff in Hf. apply Hf.
Qed.

Lemma select_rows_ok (emb : Matrix) (labels : list nat) (spk : nat) :
  List.length emb = List.length labels ->
  select_rows emb labels spk =
    Ok (map fst (filter (fun p => Nat.eqb (snd p) spk) (combine emb labels))).
Proof. intros H. unfold select_rows. rewrite H, Nat.eqb_refl. reflexivity. Qed.

(** The rows of a label: some row when the label occurs, each of the
    tensor's width. *)
Lemma selected_rows_shape (emb : Matrix) (labels : list nat) (dim spk : nat) :
  List.length emb = List.length labels -> In spk labels ->
  Forall (fun r => List.length r = dim) emb ->
  let sel := map fst (filter (fun p => Nat.eqb (snd p) spk) (combine emb labels)) in
  sel <> [] /\ Forall (fun r => List.length r = dim) sel.
Proof.
  intros Hlen Hin Hdim sel. split.
  - destruct (combine_in_snd emb labels spk Hlen Hin) as [x Hx].
    assert (Hf : In (x, spk) (filter (fun p => Nat.eqb (snd p) spk) (combine emb labels)))
      by (apply filter_In; split; [exact Hx|apply Nat.eqb_refl]).
    intros Hnil. apply (in_map fst) in Hf. subst sel. rewrite Hnil in Hf. contradiction.
  - apply Forall_forall. intros r Hr. subst sel. apply in_map_iff in Hr.
    destruct Hr as [[r' l] [Hr Hp]]. simpl in Hr. subst r'.
    apply filter_In in Hp. destruct Hp as [Hp _]. apply in_combine_l in Hp.
    rewrite Forall_forall in Hdim. apply Hdim, Hp.
Qed.

Lemma fill_columns_spec (emb : Matrix) (labels : list nat) (dim max : nat) (spks : list nat)
    (avg : Matrix) :
  List.length emb = List.length labels -> Forall (fun r => List.length r = dim) emb ->
  Forall (fun s => s < max /\ In s labels) spks ->
  has_shape avg dim max ->
  exists avg', fill_columns emb labels max spks avg = Ok avg' /\ has_shape avg' dim max /\
    forall j, column avg' j =
      if existsb (Nat.eqb j) spks
      then mean_rows (map fst (filter (fun p => Nat.eqb (snd p) j) (combine emb labels)))
      else column avg j.
Proof.
  intros Hlen Hdim. revert avg. induction spks as [|s spks IH]; intros avg Hs Hshape; simpl.
  - exists avg. split; [reflexivity|]. split; [exact Hshape|]. intros j. reflexivity.
  - inversion Hs as [|? ? [Hs0 Hsin] Hs']; subst.
    rewrite (select_rows_ok emb labels s Hlen). simpl.
    destruct (selected_rows_shape emb labels dim s Hlen Hsin Hdim) as [Hne Hsel].
    destruct (set_column_spec avg dim max s (mean_rows
                (map fst (filter (fun p => Nat.eqb (snd p) s) (combine emb labels)))) Hshape Hs0
                (length_mean_rows dim _ Hne Hsel)) as [avg1 [Havg1 [Hshape1 Hc1]]].
    rewrite Havg1. simpl.
    destruct (IH avg1 Hs' Hshape1) as [avg' [Hf [Hshape' Hc']]].
    exists avg'. split; [exact Hf|]. split; [exact Hshape'|].
    intros j. rewrite Hc', Hc1. destruct (j =? s) eqn:E; simpl.
    + apply Nat.eqb_eq in E. subst. destruct (existsb _ spks); reflexivity.
    + reflexivity.
Qed.

Lemma zeros_shape (rows cols : nat) : has_shape (zeros rows cols) rows cols.
Proof.
  unfold zeros. split; [apply repeat_length|].
  apply Forall_forall. intros r Hr. apply repeat_spec in Hr. subst. apply repeat_length.
Qed.

Lemma column_zeros (rows cols j : nat) : column (zeros rows cols) j = repeat 0%Q rows.
Proof.
  unfold column, zeros. induction rows as [|rows IH]; simpl; [reflexivity|]. rewrite IH, nth_repeat. reflexivity.
Qed.

Lemma set_order_length_le (ys labels : list nat) (max : nat) :
  set_order_ok ys labels = true ->
  Forall (fun s => s < max) labels -> List.length ys <= max.
Proof.
  intros Hord H. destruct (set_order_ok_spec ys labels Hord) as [Hnd Hin].
  rewrite <- (length_seq max 0). apply NoDup_incl_length; [exact Hnd|].
  intros s Hs. apply Hin in Hs. rewrite Forall_forall in H.
  apply in_seq. specialize (H s Hs). lia.
Qed.

Lemma set_order_ok_pair (ys : list nat) (a b : nat) :
  set_order_ok ys [a; b] = true -> a <> b -> ys = [a; b] \/ ys = [b; a].
Proof.
  intros H Hab. destruct (set_order_ok_spec ys [a; b] H) as [Hnd Hin].
  assert (Hy : forall y, In y ys -> y = a \/ y = b).
  { intros y Hy. apply Hin in Hy. destruct Hy as [<-|[<-|[]]]; [left|right]; reflexivity. }
  assert (Ha : In a ys) by (apply Hin; left; reflexivity).
  assert (Hb : In b ys) by (apply Hin; right; left; reflexivity).
  destruct ys as [|y1 [|y2 [|y3 ys]]].
  - destruct Ha.
  - destruct Ha as [<-|[]]. destruct Hb as [<-|[]]. congruence.
  - inversion Hnd as [|? ? Hn1 _]; subst.
    assert (H12 : y1 <> y2) by (intros E; apply Hn1; left; symmetry; exact E).
    destruct (Hy y1 (or_introl eq_refl)) as [->| ->];
      destruct (Hy y2 (or_intror (or_introl eq_refl))) as [->| ->]; auto; congruence.
  - exfalso. inversion Hnd as [|? ? Hn1 Hnd1]; subst. inversion Hnd1 as [|? ? Hn2 _]; subst.
    assert (H12 : y1 <> y2) by (intros E; apply Hn1; left; symmetry; exact E).
    assert (H13 : y1 <> y3) by (intros E; apply Hn1; right; left; symmetry; exact E).
    assert (H23 : y2 <> y3) by (intros E; apply Hn2; left; symmetry; exact E).
    destruct (Hy y1 (or_introl eq_refl)) as [->| ->];
      destruct (Hy y2 (or_intror (or_introl eq_refl))) as [->| ->];
      destruct (Hy y3 (or_intror (or_intror (or_introl eq_refl)))) as [->| ->]; congruence.
Qed.

(** C5 (counterexample): labels [0] and [5] are two distinct labels, at
    most [max_num_of_spks = 3], yet [avg_embs[:, 5]] on a [2 x 3] matrix is
    out of range: the column index is the label value itself. This holds
    in either iteration order of [{0, 5}]. *)
Lemma session_avg_embs_label_out_of_range_cex :
  List.length (set_list_increasing [0; 5]) <= 3 /\
  session_avg_embs set_list_increasing [0; 5] [[1; 2]; [3; 4]]%Q 2 3 = Err IndexError /\
  (forall list_set : list nat -> list nat,
     set_order_ok (list_set [0; 5]) [0; 5] = true ->
     session_avg_embs list_set [0; 5] [[1; 2]; [3; 4]]%Q 2 3 = Err IndexError).
Proof.
  split; [simpl; lia|]. split; [reflexivity|].
  intros list_set H. unfold session_avg_embs.
  destruct (set_order_ok_pair _ 0 5 H ltac:(discriminate)) as [E|E]; rewrite E; reflexivity.
Qed.

(** C5 (amended): when every cluster label is below [max_num_of_spks] (so
    the number of distinct labels is at most [max_num_of_spks]), there is
    one embedding per label, every embedding has [dim] entries, and the
    labels are visited in an iteration order of [set(clus_label_list)]
    that lists each once, [get_clus_emb]'s [avg_embs] for the session is a
    [dim x max_num_of_spks] matrix whose column [j] is the mean of the
    embeddings labelled [j] when [j] occurs, and zero otherwise. *)
Theorem session_avg_embs_columns (list_set : list nat -> list nat)
    (clus_label_list : list nat) (emb_tensor : Matrix) (dim max_num_of_spks : nat) :
  List.length emb_tensor = List.length clus_label_list ->
  Forall (fun s => s < max_num_of_spks) clus_label_list ->
  Forall (fun r => List.length r = dim) emb_tensor ->
  set_order_ok (list_set clus_label_list) clus_label_list = true ->
  exists avg_embs,
    session_avg_embs list_set clus_label_list emb_tensor dim max_num_of_spks = Ok avg_embs /\
    has_shape avg_embs dim max_num_of_spks /\
    forall j, j < max_num_of_spks -> exists selected_embs,
      select_rows emb_tensor clus_label_list j = Ok selected_embs /\
      (In j clus_label_list -> column avg_embs j = mean_rows selected_embs /\
                              List.length (mean_rows selected_embs) = dim) /\
      (~ In j clus_label_list -> column avg_embs j = repeat 0%Q dim).
Proof.
  intros Hlen Hlt Hdim Hord. unfold session_avg_embs.
  destruct (set_order_ok_spec _ _ Hord) as [_ Hin].
  pose proof (set_order_length_le _ clus_label_list max_num_of_spks Hord Hlt) as Hle.
  apply Nat.leb_le in Hle. rewrite Hle. simpl.
  destruct (fill_columns_spec emb_tensor clus_label_list dim max_num_of_spks
              (list_set clus_label_list) (zeros dim max_num_of_spks) Hlen Hdim)
    as [avg [Hf [Hsh Hc]]].
  - apply Forall_forall. intros s Hs. apply Hin in Hs. split; [|exact Hs].
    rewrite Forall_forall in Hlt. apply Hlt, Hs.
  - apply zeros_shape.
  - exists avg. split; [exact Hf|]. split; [exact Hsh|]. intros j Hj.
    eexists. split; [apply select_rows_ok, Hlen|]. split.
    + intros Hj'. rewrite Hc.
      assert (E : existsb (Nat.eqb j) (list_set clus_label_list) = true)
        by (apply existsb_eqb_in, Hin, Hj').
      rewrite E. split; [reflexivity|].
      destruct (selected_rows_shape emb_tensor clus_label_list dim j Hlen Hj' Hdim) as [Hne Hs].
      apply length_mean_rows; assumption.
    + intros Hnin. rewrite Hc.
      destruct (existsb (Nat.eqb j) (list_set clus_label_list)) eqn:E.
      * apply existsb_eqb_in, Hin in E. contradiction.
      * apply column_zeros.
Qed.

Lemma session_avg_embs_columns_witness :
  exists avg_embs,
    session_avg_embs set_list_increasing [0; 2; 0] [[1; 2]; [3; 4]; [5; 6]]%Q 2 3 = Ok avg_embs /\
    has_shape avg_embs 2 3 /\
    forall j, j < 3 -> exists selected_embs,
      select_rows [[1; 2]; [3; 4]; [5; 6]]%Q [0; 2; 0] j = Ok selected_embs /\
      (In j [0; 2; 0] -> column avg_embs j = mean_rows selected_embs /\
                         List.length (mean_rows selected_embs) = 2) /\
      (~ In j [0; 2; 0] -> column avg_embs j = repeat 0%Q 2).
Proof.
  apply session_avg_embs_columns.
  - reflexivity.
  - repeat constructor.
  - repeat constructor.
  - vm_compute. reflexivity.
Defined.

(** C8: [forward] hands the TS-VAD module the preprocessed features cut to
    their first 3000 time frames and a length of exactly 3000 for every
    batch entry, whatever the input lengths. *)
Theorem forward_truncates_to_3000 (Signal IVectors Preds : Type)
    (preprocessor : Signal -> list nat -> Features * list nat)
    (tsvad : Features -> list nat -> IVectors -> Preds)
    (input_signal : Signal) (input_signal_length : list nat) (ivectors : IVectors) :
  forward Signal IVectors Preds preprocessor tsvad input_signal input_signal_length ivectors =
  tsvad (map (map (firstn 3000)) (fst (preprocessor input_signal input_signal_length)))
        (repeat 3000 (List.length (snd (preprocessor input_signal input_signal_length))))
        ivectors.
Proof.
  unfold forward. destruct (preprocessor input_signal input_signal_length) as [ps pl]. simpl.
  rewrite map_const_repeat. reflexivity.
Qed.

(** C10: [world_size] is [trainer.num_nodes * trainer.num_gpus] with a
    trainer and 1 without. *)
Theorem init_world_size_spec :
  (forall t : Trainer, init_world_size (Some t) = num_nodes t * num_gpus t) /\
  init_world_size None = 1.
Proof. split; [intros t|]; reflexivity. Qed.

End TsVadFacts.

Module StreamWrapFacts.
Import StreamWrap.

(** C1: for a built wrapper in [STREAM_INTERNAL_STATE_INFERENCE] mode with
    [samplewise_inference], an input whose time dimension is not [1]
    raises [ValueError], as documented; but an input whose time dimension
    is [1] never returns a result: the call raises, at the latest on
    [self.cell] (the wrapped layer is [self.inner_module]). *)
Theorem streaming_internal_state_samplewise_raises (w : Wrapper) (input : Tensor) :
  built w = true -> mode w = STREAM_INTERNAL_STATE_INFERENCE -> samplewise_inference w = true ->
  (time_dim input <> 1 -> forward_built_internal w input = Err ValueError) /\
  (time_dim input = 1 -> forall r, forward_built_internal w input <> Ok r).
Proof.
  intros Hb Hm Hs. unfold forward_built_internal, streaming_internal_state.
  rewrite Hb, Hm, Hs. split.
  - intros Ht. apply Nat.eqb_neq in Ht. rewrite Ht. reflexivity.
  - intros Ht r. rewrite Ht. simpl.
    destruct (getattr_tensor w "states"%string) as [states|e]; simpl; [|discriminate].
    destruct (cat_time _ input) as [memory|e]; simpl; [|discriminate].
    destruct (zero_add states memory) as [update|e]; simpl; [|discriminate].
    destruct (setattr_tensor w "states"%string update) as [w'|e]; simpl; [|discriminate].
    unfold getattr_module. simpl. discriminate.
Qed.

(** The wrapper of [Conv1d(4, 4, kernel_size=3)] in internal-state,
    samplewise mode, with [ring_buffer_size_in_time_dim=3] given (without
    it the conv's tuple padding is refused), and its zero state buffer of
    shape [1, 3, 4]. *)
Definition conv_states : Tensor := [repeat (repeat 0%Q 4) 3].
Definition step_input : Tensor := [[[1; 2; 3; 4]%Q]].

Lemma streaming_internal_state_samplewise_raises_witness :
  exists w0, StreamWrapper_init (ConvOp 3 1 1 [0] (fun t => t)) 1 STREAM_INTERNAL_STATE_INFERENCE
               None None (Some 3) true = Ok w0 /\
    ring_buffer_size_in_time_dim w0 = Some 3 /\
    ((time_dim step_input <> 1 ->
        forward_built_internal (with_built_states w0 conv_states) step_input = Err ValueError) /\
     (time_dim step_input = 1 ->
        forall r, forward_built_internal (with_built_states w0 conv_states) step_input <> Ok r)).
Proof.
  eexists. split; [reflexivity|]. split; [reflexivity|].
  apply streaming_internal_state_samplewise_raises; reflexivity.
Defined.

(** On that wrapper the first failure is the assignment of a plain tensor
    to the registered parameter [states]. *)
Lemma conv_wrapper_step_TypeError :
  exists w0, StreamWrapper_init (ConvOp 3 1 1 [0] (fun t => t)) 1 STREAM_INTERNAL_STATE_INFERENCE
               None None (Some 3) true = Ok w0 /\
    forward_built_internal (with_built_states w0 conv_states) step_input = Err TypeError.
Proof. eexists. split; reflexivity. Qed.

(** Without an explicit [ring_buffer_size_in_time_dim], [__init__] refuses
    every conv in a streaming mode: [padding != 0] compares a tuple with
    an int. *)
Lemma init_streaming_conv_ValueError (k st d : nat) (padding : list nat)
    (run : Tensor -> Tensor) (b : nat) (m : StreamInferenceMode) (pad : option string)
    (ss : option (list nat)) (sw : bool) :
  is_non_streaming m = false ->
  StreamWrapper_init (ConvOp k st d padding run) b m pad ss None sw = Err ValueError.
Proof.
  intros Hm. unfold StreamWrapper_init, initialize_ring_buffer_size_in_time_dim. simpl.
  rewrite Hm. reflexivity.
Qed.
End StreamWrapFacts.

Module PunctNMTFacts.
Import PunctNMT.

(** C3: [segment_start] is not reset between queries: on two texts with
    [max_seq_length = 1] and [step = 1], the second query's recorded starts
    are 2 and 3, and its segments are its words 2 and 3. *)
Theorem split_into_segments_start_carries_over :
  split_into_segments ["a b c"; "d e f g h"]%string 1 1 =
  Some (["a"; "b"; "f"; "g"]%string, [0; 0; 1; 1], [0; 1; 2; 3]).
Proof. reflexivity. Qed.


Section StableSort.
Context {A : Type} (key : A -> Q).

Lemma Qle_bool_false (a b : Q) : Qle_bool a b = false -> (b < a)%Q.
Proof.
  intros H. apply Qnot_le_lt. intros Hle. apply Qle_bool_iff in Hle. congruence.
Qed.

Lemma in_insert_stable (x z : A) (l : list A) :
  In z (insert_stable key x l) <-> x = z \/ In z l.
Proof.
  induction l as [|y l IH]; simpl.
  - tauto.
  - destruct (Qle_bool (key x) (key y)); simpl; [tauto|]. rewrite IH. tauto.
Qed.

Lemma in_py_sorted (z : A) (l : list A) : In z (py_sorted key l) <-> In z l.
Proof.
  induction l as [|x l IH]; simpl; [tauto|].
  rewrite in_insert_stable, IH. intuition.
Qed.

Lemma insert_stable_not_nil (x : A) (l : list A) : insert_stable key x l <> [].
Proof. destruct l as [|y l]; simpl; [|destruct (Qle_bool (key x) (key y))]; discriminate. Qed.

Lemma py_sorted_nil (l : list A) : py_sorted key l = [] -> l = [].
Proof.
  destruct l as [|x l]; [reflexivity|]. simpl. intros H.
  exfalso. exact (insert_stable_not_nil x _ H).
Qed.

Lemma insert_stable_sorted (x : A) (l : list A) :
  StronglySorted (fun a b => (key a <= key b)%Q) l ->
  StronglySorted (fun a b => (key a <= key b)%Q) (insert_stable key x l).
Proof.
  induction l as [|y l IH]; intros Hs; simpl.
  - repeat constructor.
  - apply StronglySorted_inv in Hs. destruct Hs as [Hs Hy].
    destruct (Qle_bool (key x) (key y)) eqn:Hxy.
    + apply Qle_bool_iff in Hxy. constructor; [constructor; assumption|].
      constructor; [exact Hxy|].
      rewrite Forall_forall in Hy |- *. intros z Hz. eapply Qle_trans; [exact Hxy|]. auto.
    + apply Qle_bool_false in Hxy. constructor; [auto|].
      rewrite Forall_forall in Hy |- *. intros z Hz.
      apply in_insert_stable in Hz. destruct Hz as [->|Hz]; [apply Qlt_le_weak; exact Hxy|auto].
Qed.

Lemma py_sorted_sorted (l : list A) :
  StronglySorted (fun a b => (key a <= key b)%Q) (py_sorted key l).
Proof.
  induction l as [|x l IH]; simpl; [constructor|]. apply insert_stable_sorted, IH.
Qed.

(** The head of a stable sort is the first element of minimal key. *)
Lemma py_sorted_head (l : list A) (r : A) (rest : list A) :
  py_sorted key l = r :: rest ->
  exists pre post, l = pre ++ r :: post /\
    (forall z, In z pre -> (key r < key z)%Q) /\
    (forall z, In z l -> (key r <= key z)%Q).
Proof.
  revert r rest. induction l as [|x l IH]; intros r rest H; [discriminate|].
  simpl in H. destruct (py_sorted key l) as [|r' rest'] eqn:Hl.
  - apply py_sorted_nil in Hl. subst l. simpl in H. injection H as <- <-.
    exists [], []. split; [reflexivity|]. split; [intros z []|].
    intros z [<-|[]]. apply Qle_refl.
  - destruct (IH r' rest' eq_refl) as [pre [post [Hdec [Hpre Hmin]]]].
    simpl in H. destruct (Qle_bool (key x) (key r')) eqn:Hxr.
    + injection H as <- <-. apply Qle_bool_iff in Hxr.
      exists [], l. split; [reflexivity|]. split; [intros z []|].
      intros z [<-|Hz]; [apply Qle_refl|]. eapply Qle_trans; [exact Hxr|]. auto.
    + injection H as <- <-. apply Qle_bool_false in Hxr.
      exists (x :: pre), post. split; [rewrite Hdec; reflexivity|]. split.
      * intros z [<-|Hz]; auto.
      * intros z [<-|Hz]; [apply Qlt_le_weak; exact Hxr|auto].
Qed.

Lemma sorted_after (pre post : list A) (r y : A) :
  StronglySorted (fun a b => (key a <= key b)%Q) (pre ++ r :: post) ->
  In y post -> (key r <= key y)%Q.
Proof.
  induction pre as [|p pre IH]; simpl; intros Hs Hy.
  - apply StronglySorted_inv in Hs. destruct Hs as [_ Hf].
    rewrite Forall_forall in Hf. auto.
  - apply StronglySorted_inv in Hs. destruct Hs as [Hs _]. auto.
Qed.
End StableSort.

Lemma in_set_vote (d : Votes) (k : string) (v : Z * Z) (z : string * (Z * Z)) :
  In z (set_vote d k v) -> In z d \/ snd z = v.
Proof.
  induction d as [|[k' v'] d IH]; simpl.
  - intros [<-|[]]. right. reflexivity.
  - destruct (String.eqb k k'); simpl.
    + intros [<-|Hz]; [right; reflexivity|left; right; exact Hz].
    + intros [<-|Hz]; [left; left; reflexivity|]. destruct (IH Hz); [left; right|right]; assumption.
Qed.

Lemma set_vote_not_nil (d : Votes) (k : string) (v : Z * Z) : set_vote d k v <> [].
Proof. destruct d as [|[k' v'] d]; simpl; [|destruct (String.eqb k k')]; discriminate. Qed.

Lemma lookup_vote_in (d : Votes) (k : string) (v : Z * Z) :
  lookup_vote d k = Some v -> exists k', In (k', v) d.
Proof.
  induction d as [|[k' v'] d IH]; simpl; [discriminate|].
  destruct (String.eqb k k'). - intros [= <-]. exists k'. left. reflexivity.
  - intros H. destruct (IH H) as [k'' Hin]. exists k''. right. exact Hin.
Qed.

Definition counts_positive (d : Votes) : Prop := forall z, In z d -> (1 <= count_of z)%Z.

Lemma update_counts_positive (d : Votes) (lbl : string) (n i : Z) :
  counts_positive d -> counts_positive (update_label_counter d lbl n i).
Proof.
  unfold counts_positive, update_label_counter. intros Hd z.
  destruct (lookup_vote d lbl) as [[c s]|] eqn:Hl; intros Hz;
    apply in_set_vote in Hz; destruct Hz as [Hz|Hz]; auto;
    unfold count_of; rewrite Hz; simpl; [|lia].
  apply lookup_vote_in in Hl. destruct Hl as [k' Hin].
  specialize (Hd _ Hin). unfold count_of in Hd. simpl in Hd. lia.
Qed.

Lemma accumulate_facts (updates : list (string * Z * Z)) :
  updates <> [] -> accumulate updates <> [] /\ counts_positive (accumulate updates).
Proof.
  unfold accumulate. intros Hne.
  assert (Hgen : forall d, counts_positive d ->
            (d <> [] \/ updates <> []) ->
            fold_left (fun counter u => update_label_counter counter (fst (fst u)) (snd (fst u)) (snd u))
               updates d <> [] /\
            counts_positive (fold_left (fun counter u =>
               update_label_counter counter (fst (fst u)) (snd (fst u)) (snd u)) updates d)).
  { clear Hne. induction updates as [|u us IH]; intros d Hd Hor; simpl.
    - destruct Hor as [H|H]; [split; assumption|congruence].
    - apply IH.
      + apply update_counts_positive, Hd.
      + left. unfold update_label_counter.
        destruct (lookup_vote d _) as [[c s]|]; apply set_vote_not_nil. }
  apply Hgen; [intros z []|right; exact Hne].
Qed.

Lemma neg_div_le (s1 c1 s2 c2 : Z) :
  (inject_Z (- s1) / inject_Z c1 <= inject_Z (- s2) / inject_Z c2)%Q ->
  (inject_Z s2 / inject_Z c2 <= inject_Z s1 / inject_Z c1)%Q.
Proof.
  intros H.
  assert (E : forall s c, (inject_Z (- s) / inject_Z c == - (inject_Z s / inject_Z c))%Q).
  { intros s c. rewrite inject_Z_opp. unfold Qdiv. ring. }
  rewrite !E in H. apply Qopp_le_compat in H. rewrite !Qopp_involutive in H. exact H.
Qed.

(** C2: on any counter built by [update_label_counter] calls (at least
    one), [select_best_label] returns a label of maximal count and, among
    the labels of that count, of maximal [score / count]. *)
Theorem select_best_label_majority (updates : list (string * Z * Z)) :
  updates <> [] ->
  let votes := accumulate updates in
  exists best cb sb,
    select_best_label votes = Ok best /\ In (best, (cb, sb)) votes /\
    forall lbl c s, In (lbl, (c, s)) votes ->
      (c <= cb)%Z /\
      (c = cb -> (inject_Z s / inject_Z c <= inject_Z sb / inject_Z cb)%Q).
Proof.
  intros Hne votes.
  destruct (accumulate_facts updates Hne) as [Hvne Hpos]. fold votes in Hvne, Hpos.
  clearbody votes.
  set (k1 := fun x : string * (Z * Z) => (inject_Z (- score_of x) / inject_Z (count_of x))%Q).
  set (k2 := fun x : string * (Z * Z) => inject_Z (- count_of x)).
  set (l1 := py_sorted k1 votes).
  assert (Hz : existsb (fun x => Z.eqb (count_of x) 0) votes = false).
  { apply not_true_iff_false. intros Hx. apply existsb_exists in Hx.
    destruct Hx as [x [Hx Hc]]. apply Z.eqb_eq in Hc. specialize (Hpos x Hx). lia. }
  destruct (py_sorted k2 l1) as [|r rest] eqn:Hs2.
  { apply py_sorted_nil in Hs2. apply py_sorted_nil in Hs2. contradiction. }
  assert (Hsel : select_best_label votes = Ok (fst r)).
  { unfold select_best_label. rewrite Hz. fold k1. fold l1. fold k2. rewrite Hs2. reflexivity. }
  destruct (py_sorted_head k2 l1 r rest Hs2) as [pre [post [Hdec [Hpre Hmin]]]].
  assert (Hr : In r votes).
  { apply (in_py_sorted k1). fold l1. rewrite Hdec. apply in_or_app. right. left. reflexivity. }
  destruct r as [best [cb sb]].
  exists best, cb, sb. split; [exact Hsel|]. split; [exact Hr|].
  intros lbl c s Hin.
  assert (Hin1 : In (lbl, (c, s)) l1) by (apply in_py_sorted; exact Hin).
  pose proof (Hmin _ Hin1) as Hk2. unfold k2, count_of in Hk2. simpl in Hk2.
  rewrite <- Zle_Qle in Hk2. split; [lia|].
  intros ->.
  assert (Hk1 : (k1 (best, (cb, sb)) <= k1 (lbl, (cb, s)))%Q).
  { rewrite Hdec in Hin1. apply in_app_or in Hin1. destruct Hin1 as [Hp|[Heq|Hp]].
    - specialize (Hpre _ Hp). unfold k2, count_of in Hpre. simpl in Hpre.
      apply Qlt_irrefl in Hpre. contradiction.
    - rewrite Heq. apply Qle_refl.
    - eapply sorted_after; [|exact Hp]. rewrite <- Hdec. apply py_sorted_sorted. }
  unfold k1, score_of, count_of in Hk1. simpl in Hk1. apply neg_div_le. exact Hk1.
Qed.

Lemma select_best_label_majority_witness :
  exists best cb sb,
    select_best_label (accumulate [(","%string, 5%Z, 1%Z); ("."%string, 5%Z, 2%Z);
                                   (","%string, 5%Z, 0%Z)]) = Ok best /\
    In (best, (cb, sb)) (accumulate [(","%string, 5%Z, 1%Z); ("."%string, 5%Z, 2%Z);
                                     (","%string, 5%Z, 0%Z)]) /\
    forall lbl c s, In (lbl, (c, s)) (accumulate [(","%string, 5%Z, 1%Z); ("."%string, 5%Z, 2%Z);
                                                 (","%string, 5%Z, 0%Z)]) ->
      (c <= cb)%Z /\
      (c = cb -> (inject_Z s / inject_Z c <= inject_Z sb / inject_Z cb)%Q).
Proof. apply (select_best_label_majority [(","%string, 5%Z, 1%Z); ("."%string, 5%Z, 2%Z);
                                          (","%string, 5%Z, 0%Z)]). discriminate.
Defined.

End PunctNMTFacts.

Module PunctFstFacts.
Import PunctFst.
Local Open Scope string_scope.

(** Every character of a string is in the class [P]. *)
Fixpoint str_all (P : ascii -> bool) (s : string) : bool :=
  match s with
  | EmptyString => true
  | String c s' => P c && str_all P s'
  end.

Lemma append_empty_r (s : string) : s ++ "" = s.
Proof. induction s as [|c s IH]; simpl; [reflexivity|rewrite IH; reflexivity]. Qed.

Lemma append_assoc' (a b c : string) : (a ++ b) ++ c = a ++ (b ++ c).
Proof. induction a as [|x a IH]; simpl; [reflexivity|rewrite IH; reflexivity]. Qed.

Lemma append_inv_head (a x y : string) : a ++ x = a ++ y -> x = y.
Proof. induction a as [|c a IH]; simpl; intros H; [exact H|injection H as H; apply IH, H]. Qed.

Lemma strip_prefix_spec (p s r : string) : strip_prefix p s = Some r <-> s = p ++ r.
Proof.
  revert s. induction p as [|c p IH]; intros s; simpl.
  - split; [intros [= ->]; reflexivity|intros ->; reflexivity].
  - destruct s as [|d s].
    + split; discriminate.
    + destruct (Ascii.eqb c d) eqn:E.
      * apply Ascii.eqb_eq in E. subst d. rewrite IH.
        split; [intros ->; reflexivity|intros H; injection H as H; exact H].
      * split; [discriminate|]. intros H. injection H as -> _. rewrite Ascii.eqb_refl in E.
        discriminate.
Qed.

Lemma in_accept_lit (lit i o r : string) :
  In (o, r) (accept_lit lit i) <-> o = lit /\ i = lit ++ r.
Proof.
  unfold accept_lit. destruct (strip_prefix lit i) as [r'|] eqn:E; simpl.
  - apply strip_prefix_spec in E. subst i. split.
    + intros [H|[]]. injection H as <- <-. split; reflexivity.
    + intros [-> H]. apply append_inv_head in H. subst. left. reflexivity.
  - split; [intros []|]. intros [-> H]. apply strip_prefix_spec in H. congruence.
Qed.

Lemma in_accept_char (P : ascii -> bool) (i o r : string) :
  In (o, r) (accept_char P i) <-> exists c, o = String c "" /\ P c = true /\ i = String c r.
Proof.
  unfold accept_char. destruct i as [|c i]; simpl.
  - split; [intros []|]. intros (c & _ & _ & H). discriminate.
  - destruct (P c) eqn:E; simpl.
    + split.
      * intros [H|[]]. injection H as <- <-. exists c. split; [reflexivity|]. split; [exact E|reflexivity].
      * intros (c' & -> & _ & H). injection H as <- <-. left. reflexivity.
    + split; [intros []|]. intros (c' & _ & Hc & H). injection H as <- _. congruence.
Qed.

Lemma in_closure_char (P : ascii -> bool) (i o r : string) :
  In (o, r) (closure_char P i) <-> i = o ++ r /\ str_all P o = true.
Proof.
  revert o r. induction i as [|c i IH]; intros o r; simpl.
  - split.
    + intros [H|[]]. injection H as <- <-. split; reflexivity.
    + intros [H _]. destruct o; [|discriminate]. simpl in H. subst. left. reflexivity.
  - split.
    + intros [H|H].
      * injection H as <- <-. split; reflexivity.
      * destruct (P c) eqn:E; [|contradiction].
        apply in_map_iff in H. destruct H as [[o' r'] [Heq Hin]]. simpl in Heq.
        injection Heq as <- <-. apply IH in Hin. destruct Hin as [-> Hall].
        split; [reflexivity|]. simpl. rewrite E, Hall. reflexivity.
    + intros [Hi Hall]. destruct o as [|c' o].
      * simpl in Hi. subst r. left. reflexivity.
      * simpl in Hi, Hall. injection Hi as <- Hi. apply andb_true_iff in Hall as [Hc Hall].
        right. rewrite Hc. apply in_map_iff. exists (o, r). split; [reflexivity|].
        apply IH. split; [exact Hi|exact Hall].
Qed.

Lemma in_cat (f g : Trans) (i o r : string) :
  In (o, r) (cat f g i) <->
  exists o1 r1 o2, In (o1, r1) (f i) /\ In (o2, r) (g r1) /\ o = o1 ++ o2.
Proof.
  unfold cat. rewrite in_flat_map. split.
  - intros [[o1 r1] [H1 H2]]. apply in_map_iff in H2. destruct H2 as [[o2 r2] [Heq H2]].
    simpl in Heq. injection Heq as <- <-. exists o1, r1, o2. split; [exact H1|]. split; [exact H2|reflexivity].
  - intros (o1 & r1 & o2 & H1 & H2 & ->). exists (o1, r1). split; [exact H1|].
    apply in_map_iff. exists (o2, r). split; [reflexivity|exact H2].
Qed.

Lemma in_delete_trans (f : Trans) (i o r : string) :
  In (o, r) (delete_trans f i) <-> o = "" /\ exists o1, In (o1, r) (f i).
Proof.
  unfold delete_trans. rewrite in_map_iff. split.
  - intros [[o1 r1] [Heq H]]. simpl in Heq. injection Heq as <- <-. split; [reflexivity|]. exists o1. exact H.
  - intros [-> [o1 H]]. exists (o1, r). split; [reflexivity|exact H].
Qed.

Lemma in_closure_plus (P : ascii -> bool) (i o r : string) :
  In (o, r) (closure_plus P i) <-> o <> "" /\ i = o ++ r /\ str_all P o = true.
Proof.
  unfold closure_plus. rewrite in_cat. split.
  - intros (o1 & r1 & o2 & H1 & H2 & ->). apply in_accept_char in H1.
    destruct H1 as (c & -> & Hc & ->). apply in_closure_char in H2. destruct H2 as [-> Hall].
    split; [discriminate|]. split; [reflexivity|]. simpl. rewrite Hc, Hall. reflexivity.
  - intros (Hne & -> & Hall). destruct o as [|c o]; [congruence|].
    simpl in Hall. apply andb_true_iff in Hall as [Hc Hall].
    exists (String c ""), (o ++ r), o. split; [apply in_accept_char; exists c; auto|].
    split; [apply in_closure_char; auto|reflexivity].
Qed.

Lemma in_transduce (f : Trans) (i o : string) : In o (transduce f i) <-> In (o, "") (f i).
Proof.
  unfold transduce. rewrite in_map_iff. split.
  - intros [[o' r] [Heq H]]. simpl in Heq. subst o'. apply filter_In in H as [H E].
    simpl in E. apply String.eqb_eq in E. subst r. exact H.
  - intros H. exists (o, ""). split; [reflexivity|]. apply filter_In. split; [exact H|reflexivity].
Qed.

Lemma white_space_not_quote (c : ascii) : NEMO_WHITE_SPACE c = true -> NEMO_NOT_QUOTE c = true.
Proof.
  intros H. unfold NEMO_NOT_QUOTE. destruct (Ascii.eqb c quote) eqn:E; [|reflexivity].
  apply Ascii.eqb_eq in E. subst c. discriminate.
Qed.

Lemma str_all_impl (P Q : ascii -> bool) (s : string) :
  (forall c, P c = true -> Q c = true) -> str_all P s = true -> str_all Q s = true.
Proof.
  intros HPQ. induction s as [|c s IH]; simpl; [reflexivity|].
  intros H. apply andb_true_iff in H as [Hc Hs]. rewrite (HPQ c Hc), (IH Hs). reflexivity.
Qed.

(** The first double quote splits a string in one way only. *)
Lemma split_at_quote (w1 w2 r1 r2 : string) :
  str_all NEMO_NOT_QUOTE w1 = true -> str_all NEMO_NOT_QUOTE w2 = true ->
  w1 ++ String quote r1 = w2 ++ String quote r2 -> w1 = w2 /\ r1 = r2.
Proof.
  revert w2. induction w1 as [|a w1 IH]; intros [|b w2] H1 H2 H; simpl in *.
  - injection H as ->. split; reflexivity.
  - injection H as <- _. unfold NEMO_NOT_QUOTE in H2. rewrite Ascii.eqb_refl in H2. discriminate.
  - injection H as -> _. unfold NEMO_NOT_QUOTE in H1. rewrite Ascii.eqb_refl in H1. discriminate.
  - injection H as <- H. apply andb_true_iff in H1 as [_ H1]. apply andb_true_iff in H2 as [_ H2].
    destruct (IH w2 H1 H2 H) as [-> ->]. split; reflexivity.
Qed.

(** C6: for a non-empty symbol [p] without double quote, a run [ws] of
    white space and a suffix [s] without ['}'], the one output of
    [PunctuationFst] on [name:], [ws], a double quote, [p], a double quote,
    [ pause_length] and [s] is [p]. *)
Theorem PunctuationFst_keeps_symbol (p ws s o : string) :
  p <> "" -> str_all NEMO_NOT_QUOTE p = true -> str_all NEMO_WHITE_SPACE ws = true ->
  str_all (fun c => negb (Ascii.eqb c rbrace)) s = true ->
  In o (transduce PunctuationFst
                    ("name:" ++ ws ++ String quote (p ++ String quote (" pause_length" ++ s))))
            <-> o = p.
Proof.
  intros Hp Hpq Hws Hs. rewrite in_transduce. unfold PunctuationFst. split.
  - intros H.
    apply in_cat in H as (o5 & r5 & o6 & H5 & H6 & ->).
    apply in_delete_trans in H6 as [-> _].
    apply in_cat in H5 as (o4 & r4 & o5' & H4 & H5 & ->).
    apply in_delete_trans in H5 as [-> [? H5]]. apply in_accept_lit in H5 as [_ ->].
    apply in_cat in H4 as (o3 & r3 & o4' & H3 & H4 & ->).
    apply in_closure_plus in H4 as (_ & -> & Hq).
    apply in_cat in H3 as (o2 & r2 & o3' & H2 & H3 & ->).
    apply in_delete_trans in H3 as [-> [? H3]]. apply in_accept_lit in H3 as [_ ->].
    apply in_cat in H2 as (o1 & r1 & o2' & H1 & H2 & ->).
    apply in_delete_trans in H2 as [-> [? H2]]. apply in_closure_char in H2 as [-> Hw].
    apply in_delete_trans in H1 as [-> [? H1]]. apply in_accept_lit in H1 as [_ Hi].
    apply append_inv_head in Hi. simpl in Hi.
    apply split_at_quote in Hi as [_ Hi];
      [|apply (str_all_impl NEMO_WHITE_SPACE); [exact white_space_not_quote|exact Hws]
       |apply (str_all_impl NEMO_WHITE_SPACE); [exact white_space_not_quote|exact Hw]].
    apply split_at_quote in Hi as [Hi _]; [|exact Hpq|exact Hq].
    simpl. rewrite !append_empty_r. symmetry. exact Hi.
  - intros ->.
    apply in_cat. exists p, s, "". split; [|split; [|symmetry; apply append_empty_r]].
    2: { apply in_delete_trans. split; [reflexivity|]. exists s.
         apply in_closure_char. split; [symmetry; apply append_empty_r|].
         apply (str_all_impl (fun c => negb (Ascii.eqb c rbrace))); [|exact Hs]. intros c Hc. exact Hc. }
    apply in_cat. exists p, (String quote (" pause_length" ++ s)), "".
    split; [|split; [|symmetry; apply append_empty_r]].
    2: { apply in_delete_trans. split; [reflexivity|]. eexists. apply in_accept_lit.
         split; reflexivity. }
    apply in_cat. exists "", (p ++ String quote (" pause_length" ++ s)), p.
    split; [|split; [|reflexivity]].
    2: { apply in_closure_plus. split; [exact Hp|]. split; [reflexivity|exact Hpq]. }
    apply in_cat. exists "", (String quote (p ++ String quote (" pause_length" ++ s))), "".
    split; [|split; [|reflexivity]].
    2: { apply in_delete_trans. split; [reflexivity|]. eexists. apply in_accept_lit.
         split; reflexivity. }
    apply in_cat. exists "", (ws ++ String quote (p ++ String quote (" pause_length" ++ s))), "".
    split; [|split; [|reflexivity]].
    + apply in_delete_trans. split; [reflexivity|]. eexists. apply in_accept_lit.
      split; reflexivity.
    + apply in_delete_trans. split; [reflexivity|]. exists ws. apply in_closure_char.
      split; [reflexivity|exact Hws].
Qed.

Lemma PunctuationFst_keeps_symbol_witness :
  (In "," (transduce PunctuationFst
             ("name:" ++ " " ++ String quote ("," ++ String quote (" pause_length" ++ " 0.5"))))
   <-> "," = ",") /\
  (In "." (transduce PunctuationFst
             ("name:" ++ " " ++ String quote ("," ++ String quote (" pause_length" ++ " 0.5"))))
   <-> "." = ",").
Proof.
  split; apply PunctuationFst_keeps_symbol; first [discriminate | reflexivity].
Defined.
End PunctFstFacts.

Module PunctFstDomain.
Import PunctFst PunctFstFacts.
Local Open Scope string_scope.

(** [PunctuationFst] accepts nothing but [name:], white space, a double
    quote, a non-empty quote-free symbol, a double quote, [ pause_length]
    and a suffix without ['}'], and its output is that symbol. *)
Theorem PunctuationFst_domain (i o : string) :
  In o (transduce PunctuationFst i) ->
  exists ws s, o <> "" /\ str_all NEMO_NOT_QUOTE o = true /\
    str_all NEMO_WHITE_SPACE ws = true /\
    str_all (fun c => negb (Ascii.eqb c rbrace)) s = true /\
    i = "name:" ++ ws ++ String quote (o ++ String quote (" pause_length" ++ s)).
Proof.
  rewrite in_transduce. unfold PunctuationFst. intros H.
  apply in_cat in H as (o5 & r5 & o6 & H5 & H6 & ->).
  apply in_delete_trans in H6 as [-> [t H6]]. apply in_closure_char in H6 as [Ht Hs].
  rewrite append_empty_r in Ht. subst r5.
  apply in_cat in H5 as (o4 & r4 & o5' & H4 & H5 & ->).
  apply in_delete_trans in H5 as [-> [? H5]]. apply in_accept_lit in H5 as [_ ->].
  apply in_cat in H4 as (o3 & r3 & o4' & H3 & H4 & ->).
  apply in_closure_plus in H4 as (Hne & -> & Hq).
  apply in_cat in H3 as (o2 & r2 & o3' & H2 & H3 & ->).
  apply in_delete_trans in H3 as [-> [? H3]]. apply in_accept_lit in H3 as [_ ->].
  apply in_cat in H2 as (o1 & r1 & o2' & H1 & H2 & ->).
  apply in_delete_trans in H2 as [-> [w H2]]. apply in_closure_char in H2 as [-> Hw].
  apply in_delete_trans in H1 as [-> [? H1]]. apply in_accept_lit in H1 as [_ Hi].
  simpl. rewrite !append_empty_r.
  exists w, t. split; [exact Hne|]. split; [exact Hq|]. split; [exact Hw|]. split; [exact Hs|].
  rewrite Hi. reflexivity.
Qed.

Lemma PunctuationFst_domain_witness :
  In "," (transduce PunctuationFst
            ("name:" ++ " " ++ String quote ("," ++ String quote (" pause_length" ++ " 0.5")))) /\
  exists ws s, "," <> "" /\ str_all NEMO_NOT_QUOTE "," = true /\
    str_all NEMO_WHITE_SPACE ws = true /\
    str_all (fun c => negb (Ascii.eqb c rbrace)) s = true /\
    "name:" ++ " " ++ String quote ("," ++ String quote (" pause_length" ++ " 0.5")) =
    "name:" ++ ws ++ String quote ("," ++ String quote (" pause_length" ++ s)).
Proof.
  assert (H : In "," (transduce PunctuationFst
            ("name:" ++ " " ++ String quote ("," ++ String quote (" pause_length" ++ " 0.5")))))
    by (vm_compute; left; reflexivity).
  split; [exact H|]. apply PunctuationFst_domain. exact H.
Defined.
End PunctFstDomain.

Module PromptTableOpsFacts.
Import PromptTable PromptTableOps PromptTableFacts.
Local Open Scope string_scope.

(** A task name the [ModuleDict] accepts whatever the table holds. *)
Definition valid_key (module_attr : string -> bool) (k : string) : bool :=
  negb (module_attr k) && negb (existsb (Ascii.eqb ".") (list_ascii_of_string k))
  && negb (String.eqb k "").

Lemma setitem_valid (module_attr : string -> bool) d k v :
  valid_key module_attr k = true ->
  moduledict_setitem module_attr d k v = Ok (moduledict_put d k v).
Proof.
  unfold valid_key, moduledict_setitem. intros H.
  destruct (module_attr k), (existsb (Ascii.eqb ".") (list_ascii_of_string k)),
    (String.eqb k ""); try discriminate; reflexivity.
Qed.

Lemma assoc_put d k v k' :
  assoc (moduledict_put d k v) k' = if String.eqb k' k then Some v else assoc d k'.
Proof.
  induction d as [|[k0 v0] d IH]; simpl.
  - destruct (String.eqb k' k); reflexivity.
  - destruct (String.eqb k k0) eqn:E.
    + apply String.eqb_eq in E. subst. simpl. destruct (String.eqb k' k0); reflexivity.
    + simpl. destruct (String.eqb k' k0) eqn:E2; [|apply IH].
      apply String.eqb_eq in E2. subst. rewrite String.eqb_sym, E. reflexivity.
Qed.

Lemma has_key_in d k : has_key d k = true <-> In k (map fst d).
Proof.
  unfold has_key. rewrite existsb_exists. split.
  - intros [[k' v] [Hin Heq]]. apply String.eqb_eq in Heq. simpl in Heq. subst.
    apply in_map_iff. exists (k, v). auto.
  - intros Hin. apply in_map_iff in Hin. destruct Hin as [[k' v] [Heq Hin]].
    simpl in Heq. subst. exists (k, v). split; [exact Hin|]. apply String.eqb_refl.
Qed.

Lemma keys_put d k v :
  map fst (moduledict_put d k v) = if has_key d k then map fst d else (map fst d ++ [k])%list.
Proof.
  induction d as [|[k0 v0] d IH]; simpl; [reflexivity|].
  unfold has_key in *. simpl.
  destruct (String.eqb k k0) eqn:E.
  - apply String.eqb_eq in E. subst. rewrite String.eqb_refl. reflexivity.
  - rewrite (String.eqb_sym k0 k), E. simpl. rewrite IH.
    destruct (existsb (fun kv => String.eqb (fst kv) k) d); reflexivity.
Qed.

Lemma NoDup_snoc {A : Type} (l : list A) (x : A) :
  NoDup l -> ~ In x l -> NoDup (l ++ [x])%list.
Proof.
  induction l as [|a l IH]; simpl; intros Hnd Hx.
  - constructor; [intros []|constructor].
  - apply NoDup_cons_iff in Hnd. destruct Hnd as [Ha Hnd]. constructor.
    + intros Hin. apply in_app_or in Hin. destruct Hin as [Hin|[Hin|[]]]; [tauto|].
      subst. apply Hx. left. reflexivity.
    + apply IH; [exact Hnd|]. intros Hin. apply Hx. right. exact Hin.
Qed.

Lemma NoDup_keys_put d k v :
  NoDup (map fst d) -> NoDup (map fst (moduledict_put d k v)).
Proof.
  intros Hnd. rewrite keys_put. destruct (has_key d k) eqn:E; [exact Hnd|].
  apply NoDup_snoc; [exact Hnd|]. intros Hin. apply has_key_in in Hin. congruence.
Qed.

Lemma nth_error_firstn_lt {A : Type} (l : list A) (k i : nat) :
  i < k -> nth_error (firstn k l) i = nth_error l i.
Proof.
  revert k i. induction l as [|a l IH]; intros k i Hi.
  - destruct k; reflexivity.
  - destruct k as [|k]; [lia|]. destruct i as [|i]; [reflexivity|]. simpl. apply IH. lia.
Qed.

Lemma length_concat_repeat {A : Type} (l : list A) (k : nat) :
  List.length (concat (repeat l k)) = k * List.length l.
Proof. induction k as [|k IH]; simpl; [reflexivity|]. rewrite length_app, IH. reflexivity. Qed.

Lemma nth_error_concat_repeat {A : Type} (l : list A) (k i : nat) :
  l <> [] -> i < k * List.length l ->
  nth_error (concat (repeat l k)) i = nth_error l (i mod List.length l).
Proof.
  intros Hl. assert (Hn : List.length l <> 0) by (destruct l; [congruence|discriminate]).
  revert i. induction k as [|k IH]; intros i Hi; [simpl in Hi; lia|].
  simpl. destruct (Nat.lt_ge_cases i (List.length l)) as [Hlt|Hge].
  - rewrite nth_error_app1 by exact Hlt. rewrite Nat.mod_small by exact Hlt. reflexivity.
  - rewrite nth_error_app2 by exact Hge. rewrite IH by (simpl in Hi; lia).
    replace i with ((i - List.length l) + 1 * List.length l) at 2 by lia.
    rewrite Nat.Div0.mod_add. reflexivity.
Qed.

Lemma ceil_div_mul (a b : nat) : 0 < b -> a <= ceil_div a b * b.
Proof.
  intros Hb. unfold ceil_div.
  pose proof (Nat.div_mod (a + b - 1) b ltac:(lia)) as Hd.
  pose proof (Nat.mod_upper_bound (a + b - 1) b ltac:(lia)) as Hm.
  set (q := (a + b - 1) / b) in *. set (r := (a + b - 1) mod b) in *. nia.
Qed.

(** [init_prompt_from_text] on a non-empty id list: the ids used are
    [total_soft_tokens] many, the [i]-th being [init_token_ids[i mod n]],
    for [n] the number of given ids (a trim when [n] is larger, a cyclic
    repeat when it is smaller). *)
Theorem prompt_token_ids_cycle (ids : list nat) (T : nat) :
  ids <> [] ->
  exists l, prompt_token_ids ids T = Ok l /\ List.length l = T /\
    forall i, i < T -> nth_error l i = nth_error ids (i mod List.length ids).
Proof.
  intros Hne. assert (Hn : 0 < List.length ids) by (destruct ids; [congruence|simpl; lia]).
  unfold prompt_token_ids.
  destruct (Nat.ltb_spec T (List.length ids)) as [HTn|HTn]; simpl.
  - eexists; split; [reflexivity|]. rewrite firstn_firstn, Nat.min_id. split.
    + rewrite length_firstn. lia.
    + intros i Hi. rewrite nth_error_firstn_lt by lia.
      rewrite Nat.mod_small by lia. reflexivity.
  - destruct (Nat.ltb_spec (List.length ids) T) as [HnT|HnT]; simpl.
    + destruct (Nat.eqb_spec (List.length ids) 0) as [H0|H0]; [lia|]. simpl.
      pose proof (ceil_div_mul T (List.length ids) Hn) as Hc.
      eexists; split; [reflexivity|]. split.
      * rewrite length_firstn, length_concat_repeat. lia.
      * intros i Hi. rewrite nth_error_firstn_lt by lia.
        apply nth_error_concat_repeat; [exact Hne|lia].
    + assert (HT : T = List.length ids) by lia. subst T.
      eexists; split; [reflexivity|]. rewrite firstn_all. split; [reflexivity|].
      intros i Hi. rewrite Nat.mod_small by lia. reflexivity.
Qed.

Lemma prompt_token_ids_cycle_witness :
  exists l, prompt_token_ids [7; 8] 5 = Ok l /\ List.length l = 5 /\ l = [7; 8; 7; 8; 7].
Proof.
  destruct (prompt_token_ids_cycle [7; 8] 5 ltac:(discriminate)) as [l [Hl [Hlen _]]].
  exists l. split; [exact Hl|]. split; [exact Hlen|].
  vm_compute in Hl. injection Hl as Hl. subst. reflexivity.
Defined.

(** [init_prompt_from_text] with no token ids and a positive
    [total_soft_tokens] raises [ZeroDivisionError] ([math.ceil(total / 0)]),
    whatever the task name and the word embeddings. *)
Theorem init_prompt_from_text_no_ids (module_attr : string -> bool)
    (xavier_normal_ : Table -> Table) (self : PromptTableState) (taskname : string)
    (word_embeddings : Table) :
  0 < pt_total_soft_tokens self ->
  init_prompt_from_text module_attr xavier_normal_ self taskname [] word_embeddings
  = Err ZeroDivisionError.
Proof.
  intros HT. unfold init_prompt_from_text, prompt_token_ids. simpl.
  destruct (pt_total_soft_tokens self) as [|T]; [lia|]. reflexivity.
Qed.

Lemma init_prompt_from_text_no_ids_witness :
  init_prompt_from_text (fun _ => false) (fun t => t) (mkPromptTableState 4 2 [] [])
    "task" [] [[1%Q; 2%Q]] = Err ZeroDivisionError.
Proof. apply init_prompt_from_text_no_ids. simpl. lia. Defined.

Lemma embedding_lookup_in_range (w : Table) (ids : list nat) :
  Forall (fun i => i < List.length w) ids ->
  embedding_lookup w ids = Ok (map (fun i => nth i w []) ids).
Proof.
  induction ids as [|i ids IH]; intros Hf; [reflexivity|].
  apply Forall_cons_iff in Hf. destruct Hf as [Hi Hf]. simpl.
  rewrite (nth_error_nth' w [] Hi). rewrite IH by exact Hf. reflexivity.
Qed.

Lemma cycle_incl (ids l : list nat) (T : nat) :
  ids <> [] -> List.length l = T ->
  (forall i, i < T -> nth_error l i = nth_error ids (i mod List.length ids)) ->
  forall x, In x l -> In x ids.
Proof.
  intros Hne Hlen Hnth x Hx. apply In_nth_error in Hx. destruct Hx as [i Hi].
  assert (HiT : i < T) by (subst T; apply nth_error_Some; congruence).
  rewrite Hnth in Hi by exact HiT. eapply nth_error_In. exact Hi.
Qed.

(** After [init_prompt_from_text] with a valid task name, non-empty ids,
    ids inside the word-embedding table, and [hidden_size] and
    [total_soft_tokens] not both 0, the task's prompt returns, with the
    default dropout [0.0], [total_soft_tokens] rows, row [i] being the word
    embedding of [init_token_ids[i mod n]]; the other tasks and the id map
    are unchanged. *)
Theorem init_prompt_from_text_forward (bernoulli : Q -> nat -> nat -> bool)
    (module_attr : string -> bool) (xavier_normal_ : Table -> Table)
    (self : PromptTableState) (taskname : string) (ids : list nat) (w : Table) :
  (forall i j, bernoulli 1%Q i j = true) ->
  valid_key module_attr taskname = true -> ids <> [] ->
  Forall (fun i => i < List.length w) ids ->
  pt_hidden_size self + pt_total_soft_tokens self <> 0 ->
  exists self', init_prompt_from_text module_attr xavier_normal_ self taskname ids w = Ok self' /\
    task_id_num_to_name self' = task_id_num_to_name self /\
    (forall k, k <> taskname -> assoc (prompt_table self') k = assoc (prompt_table self) k) /\
    exists e out, assoc (prompt_table self') taskname = Some e /\
      forward bernoulli e = Ok out /\ List.length out = pt_total_soft_tokens self /\
      forall i, i < pt_total_soft_tokens self ->
        nth_error out i = nth_error w (nth (i mod List.length ids) ids 0).
Proof.
  intros Hb Hk Hne Hw HHT.
  destruct (prompt_token_ids_cycle ids (pt_total_soft_tokens self) Hne) as [l [Hl [Hlen Hnth]]].
  assert (Hlw : Forall (fun i => i < List.length w) l).
  { apply Forall_forall. intros x Hx. rewrite Forall_forall in Hw. apply Hw.
    exact (cycle_incl ids l _ Hne Hlen Hnth x Hx). }
  unfold init_prompt_from_text. rewrite Hl. simpl.
  rewrite (embedding_lookup_in_range w l Hlw). simpl.
  unfold new_prompt_embedding. rewrite (proj2 (Nat.eqb_neq _ 0) HHT). simpl.
  rewrite setitem_valid by exact Hk. simpl.
  eexists; split; [reflexivity|]. split; [reflexivity|]. split.
  { intros k Hneq. simpl. rewrite assoc_put.
    destruct (String.eqb_spec k taskname); [congruence|reflexivity]. }
  set (rows := map (fun i => nth i w []) l).
  exists (PromptEmbedding_init true (pt_hidden_size self) (pt_total_soft_tokens self)
            rows xavier_normal_ 0%Q true), rows.
  simpl. rewrite assoc_put, String.eqb_refl. split; [reflexivity|].
  assert (Hrows : List.length rows = pt_total_soft_tokens self)
    by (subst rows; rewrite length_map; exact Hlen).
  split.
  { unfold forward, PromptEmbedding_init. cbn [prompt_embeddings_weight indices].
    rewrite <- Hrows, embedding_lookup_all. cbn [bind embedding_dropout_p PromptTable.training].
    rewrite (dropout_zero bernoulli Hb). reflexivity. }
  split; [exact Hrows|].
  intros i Hi. subst rows. rewrite nth_error_map, Hnth by exact Hi.
  assert (Hm : i mod List.length ids < List.length ids)
    by (apply Nat.mod_upper_bound; destruct ids; [congruence|discriminate]).
  rewrite (nth_error_nth' ids 0 Hm). simpl.
  assert (Hin : nth (i mod List.length ids) ids 0 < List.length w).
  { rewrite Forall_forall in Hw. apply Hw. apply nth_In. exact Hm. }
  rewrite (nth_error_nth' w [] Hin). reflexivity.
Qed.

Lemma init_prompt_from_text_forward_witness :
  exists self', init_prompt_from_text (fun _ => false) (fun t => t)
    (mkPromptTableState 3 1 [] []) "task" [1; 0] [[5%Q]; [6%Q]] = Ok self' /\
    task_id_num_to_name self' = [] /\
    (forall k, k <> "task" -> assoc (prompt_table self') k = None) /\
    exists e out, assoc (prompt_table self') "task" = Some e /\
      forward (fun _ _ _ => true) e = Ok out /\ List.length out = 3 /\
      forall i, i < 3 -> nth_error out i = nth_error [[5%Q]; [6%Q]] (nth (i mod 2) [1; 0] 0).
Proof.
  exact (init_prompt_from_text_forward (fun _ _ _ => true) (fun _ => false) (fun t => t)
           (mkPromptTableState 3 1 [] []) "task" [1; 0] [[5%Q]; [6%Q]]
           (fun _ _ => eq_refl) eq_refl ltac:(discriminate)
           ltac:(repeat constructor) ltac:(simpl; lia)).
Defined.

Lemma setitem_table (module_attr : string -> bool) d k v t :
  moduledict_setitem module_attr d k v = Ok t -> t = moduledict_put d k v.
Proof.
  unfold moduledict_setitem.
  destruct (module_attr k && negb (has_key d k)),
    (existsb (Ascii.eqb ".") (list_ascii_of_string k)), (String.eqb k "");
    simpl; congruence.
Qed.

Lemma apply_op_ids (module_attr : string -> bool) (xavier_normal_ : Table -> Table)
    self op self' :
  apply_op module_attr xavier_normal_ self op = Ok self' ->
  task_id_num_to_name self' = task_id_num_to_name self.
Proof.
  destruct op as [k|k ids w|k soft|k]; simpl;
    unfold init_prompt_from_random, init_prompt_from_text, add_prompt_from_p_tuning_encoder;
    [| destruct (prompt_token_ids ids (pt_total_soft_tokens self)); simpl; [|discriminate];
       destruct (embedding_lookup w _); simpl; [|discriminate] | |discriminate];
    unfold random_prompt, new_prompt_embedding;
    destruct (Nat.eqb (pt_hidden_size self + pt_total_soft_tokens self) 0);
    simpl; try discriminate;
    match goal with
    | |- context [moduledict_setitem ?m ?d ?k ?v] => destruct (moduledict_setitem m d k v)
    end; simpl; try discriminate;
    intros H; injection H as <-; reflexivity.
Qed.

Lemma run_ops_ids (module_attr : string -> bool) (xavier_normal_ : Table -> Table)
    ops : forall self self',
  run_ops module_attr xavier_normal_ self ops = Ok self' ->
  task_id_num_to_name self' = task_id_num_to_name self.
Proof.
  induction ops as [|op ops IH]; intros self self' H; simpl in H; [congruence|].
  destruct (apply_op module_attr xavier_normal_ self op) as [s|e] eqn:E; [|discriminate].
  simpl in H. rewrite (IH _ _ H). exact (apply_op_ids _ _ _ _ _ E).
Qed.

Lemma add_existing_tasks_ids (module_attr : string -> bool)
    (xavier_normal_ : Table -> Table) tasks : forall self self',
  add_existing_tasks module_attr xavier_normal_ self tasks = Ok self' ->
  task_id_num_to_name self' = task_id_num_to_name self.
Proof.
  induction tasks as [|[k|] tasks IH]; intros self self' H; simpl in H; [congruence| |].
  - destruct (random_prompt xavier_normal_ self) as [e|e]; simpl in H; [|discriminate].
    destruct (moduledict_setitem module_attr (prompt_table self) k e) as [t|e']; [|discriminate].
    simpl in H. rewrite (IH _ _ H). reflexivity.
  - destruct (random_prompt xavier_normal_ self); discriminate.
Qed.

(** No method of [PromptTable] ever registers a task id: after
    construction and any sequence of [init_prompt_from_random],
    [init_prompt_from_text], [add_prompt_from_p_tuning_encoder] and
    [remove_prompt] calls that does not raise, [task_id_num_to_name] is still
    empty and [forward] raises [KeyError] for every task id. *)
Theorem forward_after_ops_KeyError (module_attr : string -> bool)
    (xavier_normal_ : Table -> Table) (bernoulli : Q -> nat -> nat -> bool)
    (existing_tasks : list (option string)) (total_soft_tokens hidden_size : nat)
    (ops : list TableOp) (self0 self : PromptTableState) :
  PromptTable_init module_attr xavier_normal_ existing_tasks total_soft_tokens hidden_size
    = Ok self0 ->
  run_ops module_attr xavier_normal_ self0 ops = Ok self ->
  task_id_num_to_name self = [] /\
  forall task_id_num, PromptTable_forward bernoulli self task_id_num = Err KeyError.
Proof.
  intros Hinit Hops.
  assert (H0 : task_id_num_to_name self0 = []).
  { unfold PromptTable_init in Hinit.
    destruct existing_tasks as [|[k|] tasks]; try (injection Hinit as <-; reflexivity).
    exact (add_existing_tasks_ids _ _ _ _ _ Hinit). }
  assert (Hids : task_id_num_to_name self = []) by (rewrite (run_ops_ids _ _ _ _ _ Hops); exact H0).
  split; [exact Hids|]. intros k. unfold PromptTable_forward. rewrite Hids. reflexivity.
Qed.

Lemma forward_after_ops_KeyError_witness :
  exists self0 self,
    PromptTable_init (fun _ => false) (fun t => t) [Some "a"] 2 1 = Ok self0 /\
    run_ops (fun _ => false) (fun t => t) self0
      [OpInitRandom "b"; OpAddPTuning "c" [[1%Q]; [2%Q]]] = Ok self /\
    task_id_num_to_name self = [] /\ PromptTable_forward (fun _ _ _ => true) self 0 = Err KeyError.
Proof.
  eexists. eexists. split; [reflexivity|]. split; [reflexivity|].
  destruct (forward_after_ops_KeyError (fun _ => false) (fun t => t) (fun _ _ _ => true)
              [Some "a"] 2 1 [OpInitRandom "b"; OpAddPTuning "c" [[1%Q]; [2%Q]]] _ _
              eq_refl eq_refl) as [Hids Hfw].
  split; [exact Hids|]. apply Hfw.
Defined.

Lemma add_existing_tasks_spec (module_attr : string -> bool) (xavier_normal_ : Table -> Table)
    (names : list string) : forall self,
  Forall (fun k => valid_key module_attr k = true) names ->
  NoDup (map fst (prompt_table self)) ->
  pt_hidden_size self + pt_total_soft_tokens self <> 0 ->
  exists self', add_existing_tasks module_attr xavier_normal_ self (map Some names) = Ok self' /\
    pt_total_soft_tokens self' = pt_total_soft_tokens self /\
    pt_hidden_size self' = pt_hidden_size self /\
    task_id_num_to_name self' = task_id_num_to_name self /\
    NoDup (map fst (prompt_table self')) /\
    forall k, assoc (prompt_table self') k =
      if existsb (String.eqb k) names
      then Some (PromptEmbedding_init false (pt_hidden_size self) (pt_total_soft_tokens self) []
                   xavier_normal_ 0%Q true)
      else assoc (prompt_table self) k.
Proof.
  induction names as [|a names IH]; intros self Hv Hnd HHT; simpl.
  - exists self. repeat split; auto.
  - apply Forall_cons_iff in Hv. destruct Hv as [Ha Hv].
    unfold random_prompt at 1, new_prompt_embedding at 1.
    rewrite (proj2 (Nat.eqb_neq _ 0) HHT). simpl.
    rewrite setitem_valid by exact Ha. simpl.
    set (e := PromptEmbedding_init false (pt_hidden_size self) (pt_total_soft_tokens self) []
                xavier_normal_ 0%Q true).
    set (self1 := with_table self (moduledict_put (prompt_table self) a e)).
    destruct (IH self1 Hv (NoDup_keys_put _ _ _ Hnd) HHT)
      as [self' [Hrun [HT [HH [Hid [Hnd' Hk]]]]]].
    exists self'. split; [exact Hrun|]. repeat split; try assumption.
    intros k. rewrite Hk. subst self1. simpl. fold e. rewrite assoc_put.
    destruct (String.eqb k a); simpl; [|reflexivity].
    destruct (existsb (String.eqb k) names); reflexivity.
Qed.

(** [PromptTable(existing_tasks, T, H)] with a non-empty list of valid task
    names and [T] and [H] not both 0 registers each name once, in a table
    with no duplicate key, every one holding a fresh random [T x H] prompt,
    and registers no task id. *)
Theorem PromptTable_init_registers (module_attr : string -> bool)
    (xavier_normal_ : Table -> Table) (names : list string)
    (total_soft_tokens hidden_size : nat) :
  names <> [] -> Forall (fun k => valid_key module_attr k = true) names ->
  total_soft_tokens + hidden_size <> 0 ->
  exists self, PromptTable_init module_attr xavier_normal_ (map Some names)
                 total_soft_tokens hidden_size = Ok self /\
    task_id_num_to_name self = [] /\ NoDup (map fst (prompt_table self)) /\
    forall k, assoc (prompt_table self) k =
      if existsb (String.eqb k) names
      then Some (PromptEmbedding_init false hidden_size total_soft_tokens [] xavier_normal_
                   0%Q true)
      else None.
Proof.
  intros Hne Hv HTH.
  destruct (add_existing_tasks_spec module_attr xavier_normal_ names
              (mkPromptTableState total_soft_tokens hidden_size [] []) Hv (NoDup_nil _)
              ltac:(simpl; lia))
    as [self [Hrun [_ [_ [Hid [Hnd Hk]]]]]].
  exists self. split.
  { unfold PromptTable_init. destruct names as [|a names]; [congruence|]. exact Hrun. }
  split; [exact Hid|]. split; [exact Hnd|]. exact Hk.
Qed.

Lemma PromptTable_init_registers_witness :
  exists self, PromptTable_init (fun _ => false) (fun t => t) [Some "a"; Some "b"; Some "a"] 2 1
                 = Ok self /\
    task_id_num_to_name self = [] /\ NoDup (map fst (prompt_table self)) /\
    forall k, assoc (prompt_table self) k =
      if existsb (String.eqb k) ["a"; "b"; "a"]
      then Some (PromptEmbedding_init false 1 2 [] (fun t => t) 0%Q true) else None.
Proof.
  exact (PromptTable_init_registers (fun _ => false) (fun t => t) ["a"; "b"; "a"] 2 1
           ltac:(discriminate) ltac:(repeat constructor) ltac:(lia)).
Defined.

(** [PromptTable.__init__] raises when a [None] follows valid task names in
    [existing_tasks]: [TypeError] ([ModuleDict] keys are strings), or
    [ZeroDivisionError] from [init.xavier_normal_] when [T] and [H] are both
    0; it builds an empty table when [existing_tasks] starts with [None]. *)
Theorem PromptTable_init_None_key (module_attr : string -> bool)
    (xavier_normal_ : Table -> Table) (a : string) (names : list string)
    (rest : list (option string)) (total_soft_tokens hidden_size : nat) :
  Forall (fun k => valid_key module_attr k = true) (a :: names) ->
  PromptTable_init module_attr xavier_normal_ (Some a :: map Some names ++ None :: rest)
    total_soft_tokens hidden_size
  = Err (if Nat.eqb (total_soft_tokens + hidden_size) 0 then ZeroDivisionError else TypeError) /\
  PromptTable_init module_attr xavier_normal_ (None :: rest) total_soft_tokens hidden_size
    = Ok (mkPromptTableState total_soft_tokens hidden_size [] []).
Proof.
  intros Hv. split; [|reflexivity]. unfold PromptTable_init.
  destruct (Nat.eqb_spec (total_soft_tokens + hidden_size) 0) as [H0|H0].
  - simpl. unfold random_prompt, new_prompt_embedding. simpl.
    rewrite Nat.add_comm, H0. reflexivity.
  - change (Some a :: map Some names ++ None :: rest)%list
      with (map Some (a :: names) ++ None :: rest)%list.
    assert (HHT : pt_hidden_size (mkPromptTableState total_soft_tokens hidden_size [] [])
                  + pt_total_soft_tokens (mkPromptTableState total_soft_tokens hidden_size [] [])
                  <> 0) by (simpl; lia).
    revert HHT.
    generalize (mkPromptTableState total_soft_tokens hidden_size [] []).
    induction (a :: names) as [|b l IH]; intros self HHT; simpl;
      unfold random_prompt at 1, new_prompt_embedding at 1;
      rewrite (proj2 (Nat.eqb_neq _ 0) HHT); simpl; [reflexivity|].
    apply Forall_cons_iff in Hv. destruct Hv as [Hb Hv].
    rewrite setitem_valid by exact Hb. simpl. apply IH; [exact Hv|exact HHT].
Qed.

Lemma PromptTable_init_None_key_witness :
  PromptTable_init (fun _ => false) (fun t => t) [Some "a"; None] 2 1 = Err TypeError /\
  PromptTable_init (fun _ => false) (fun t => t) [Some "a"; None] 0 0 = Err ZeroDivisionError.
Proof.
  split.
  - exact (proj1 (PromptTable_init_None_key (fun _ => false) (fun t => t) "a" [] [] 2 1
                    ltac:(repeat constructor))).
  - exact (proj1 (PromptTable_init_None_key (fun _ => false) (fun t => t) "a" [] [] 0 0
                    ltac:(repeat constructor))).
Defined.

End PromptTableOpsFacts.

Module StreamWrapForwardFacts.
Import StreamWrap StreamWrapForward.

Lemma streaming_internal_state_never_ok (w : Wrapper) (input : Tensor) r :
  streaming_internal_state w input <> Ok r.
Proof.
  unfold streaming_internal_state.
  destruct (samplewise_inference w).
  - destruct (negb (time_dim input =? 1)); [discriminate|].
    destruct (getattr_tensor w "states"%string) as [states|e]; simpl; [|discriminate].
    destruct (cat_time _ input) as [memory|e]; simpl; [|discriminate].
    destruct (zero_add states memory) as [update|e]; simpl; [|discriminate].
    destruct (setattr_tensor w "states"%string update) as [w'|e]; simpl; [|discriminate].
    unfold getattr_module. simpl. discriminate.
  - destruct (ring_buffer_size_in_time_dim w) as [[|n]|].
    + unfold getattr_module. simpl. discriminate.
    + destruct (getattr_tensor w "states"%string) as [states|e]; simpl; [|discriminate].
      destruct (cat_time states input) as [memory|e]; simpl; [|discriminate].
      destruct (zero_add states _) as [update|e]; simpl; [|discriminate].
      destruct (setattr_tensor w "states"%string update) as [w'|e]; simpl; [|discriminate].
      unfold getattr_module. simpl. discriminate.
    + unfold getattr_module. simpl. discriminate.
Qed.

(** Once [_build_states] has returned, [StreamWrapper.forward] raises in
    every mode and for every wrapper state and input: in external-state
    mode with a ring buffer set, with [AttributeError] when
    [self.input_state] is missing and [TypeError] when it is there, and
    without a ring buffer with [AttributeError] ([self.cell]); in the two non-streaming modes with
    [ValueError] for a truthy [pad_time_dim] on a global time-dim op and
    [AttributeError] otherwise; in internal-state mode by one of the
    failures of [_streaming_internal_state]. *)
Theorem forward_never_returns (w : Wrapper) (input : Tensor) :
  (forall r, forward_dispatch w input <> Ok r) /\
  (mode w = STREAM_EXTERNAL_STATE_INFERENCE ->
   forward_dispatch w input =
   Err (if ring_truthy (ring_buffer_size_in_time_dim w) then
          match getattr_tensor w "input_state"%string with
          | Ok _ => TypeError
          | Err _ => AttributeError
          end
        else AttributeError)) /\
  (is_non_streaming (mode w) = true ->
   forward_dispatch w input =
   Err (if pad_truthy (pad_time_dim w) && is_global_time_dim_op (inner_module w)
        then ValueError else AttributeError)).
Proof.
  unfold forward_dispatch, non_streaming.
  destruct (mode w); repeat split; intros; try discriminate;
    try apply streaming_internal_state_never_ok.
  - destruct (pad_truthy (pad_time_dim w) && is_global_time_dim_op (inner_module w));
      simpl; discriminate.
  - destruct (pad_truthy (pad_time_dim w) && is_global_time_dim_op (inner_module w));
      reflexivity.
  - destruct (ring_truthy (ring_buffer_size_in_time_dim w)),
      (getattr_tensor w "input_state"%string); unfold getattr_module; simpl; discriminate.
  - unfold getattr_tensor.
    destruct (ring_truthy (ring_buffer_size_in_time_dim w)),
      (assoc (tensor_attrs w) "input_state"%string),
      (assoc (_parameters w) "input_state"%string); reflexivity.
  - destruct (pad_truthy (pad_time_dim w) && is_global_time_dim_op (inner_module w));
      simpl; discriminate.
  - destruct (pad_truthy (pad_time_dim w) && is_global_time_dim_op (inner_module w));
      reflexivity.
Qed.

End StreamWrapForwardFacts.

Module StreamWrapInitFacts.
Import StreamWrap.

(** An explicit [ring_buffer_size_in_time_dim] skips every layer check of
    [StreamWrapper.__init__]: any module but a global time-dim op (a conv
    with padding, a pool with stride unequal to its kernel, an unsupported
    layer) is accepted in every mode, with that ring size and stride [1].
    A global time-dim op is still refused without [samplewise_inference]. *)
Theorem init_explicit_ring (module : Layer) (inference_batch_size : nat)
    (mode : StreamInferenceMode) (pad_time_dim : option string)
    (state_shape : option (list nat)) (ring : nat) (samplewise_inference : bool) :
  (forall run, module <> GlobalTimeDimOp run) ->
  exists w, StreamWrapper_init module inference_batch_size mode pad_time_dim state_shape
              (Some ring) samplewise_inference = Ok w /\
    ring_buffer_size_in_time_dim w = Some ring /\ stride w = 1 /\ built w = false /\
    inner_module w = module.
Proof.
  intros Hg. unfold StreamWrapper_init, initialize_ring_buffer_size_in_time_dim. simpl.
  destruct module as [k s d p run|k s run|run|run];
    try (eexists; repeat split; reflexivity).
  exfalso. exact (Hg run eq_refl).
Qed.

Lemma init_explicit_ring_witness :
  exists w, StreamWrapper_init (OtherLayer (fun t => t)) 1 STREAM_INTERNAL_STATE_INFERENCE
              None None (Some 4) false = Ok w /\
    ring_buffer_size_in_time_dim w = Some 4 /\ stride w = 1 /\ built w = false /\
    inner_module w = OtherLayer (fun t => t).
Proof.
  exact (init_explicit_ring (OtherLayer (fun t => t)) 1 STREAM_INTERNAL_STATE_INFERENCE
           None None 4 false (fun run H => ltac:(discriminate H))).
Defined.

End StreamWrapInitFacts.

Module PunctNMTLabelsFacts.
Import PunctNMT PunctNMTLabels.


Lemma sapp_assoc (a b c : string) : (a ++ (b ++ c))%string = ((a ++ b) ++ c)%string.
Proof. induction a as [|x a IH]; simpl; [reflexivity|]. rewrite IH. reflexivity. Qed.




Lemma split_sep_go_cons (sep : string) (c : ascii) (s : string) (skip : nat)
    (cur : list ascii) :
  split_sep_go sep (String c s) skip cur =
  match skip with
  | S k => split_sep_go sep s k cur
  | 0 =>
      if String.prefix sep (String c s)
      then string_of_rev cur EmptyString :: split_sep_go sep s (String.length sep - 1) []
      else split_sep_go sep s 0 (c :: cur)
  end.
Proof. reflexivity. Qed.



Section Votes.
Variable capitalization_labels : string.
Variables step margin : Z.


End Votes.





Definition cnt (caps : string) (l : list ascii) : nat :=
  List.length (filter (fun c => py_str_in (String c EmptyString) caps) l).

Lemma cnt_app caps a b : cnt caps (a ++ b) = cnt caps a + cnt caps b.
Proof. unfold cnt. rewrite filter_app, length_app. reflexivity. Qed.

Lemma get_sol (l : list ascii) (n : nat) : String.get n (string_of_list_ascii l) = nth_error l n.
Proof. revert n. induction l as [|c l IH]; intros [|n]; simpl; auto. Qed.

Lemma length_sol (l : list ascii) : String.length (string_of_list_ascii l) = List.length l.
Proof. induction l as [|c l IH]; simpl; congruence. Qed.

Lemma sol_app (a b : list ascii) :
  string_of_list_ascii (a ++ b) = (string_of_list_ascii a ++ string_of_list_ascii b)%string.
Proof. induction a as [|c a IH]; simpl; congruence. Qed.

Lemma substring_sol (l1 l2 : list ascii) :
  substring 0 (List.length l1) (string_of_list_ascii (l1 ++ l2)) = string_of_list_ascii l1.
Proof.
  induction l1 as [|c l1 IH]; simpl; [destruct (string_of_list_ascii l2); reflexivity|].
  rewrite IH. reflexivity.
Qed.

Lemma trunc_loop_spec (caps : string) (nw : Z) (labels_l : list ascii) n : forall pre suf i,
  labels_l = pre ++ suf -> List.length pre <= n -> (nw <= i)%Z ->
  (i - nw <= Z.of_nat (cnt caps pre))%Z ->
  exists l1 l2, pre = l1 ++ l2 /\
    trunc_loop (string_of_list_ascii labels_l) caps nw n i (Z.of_nat (List.length pre) - 1)
      = Ok (Z.of_nat (List.length l1) - 1)%Z /\
    Z.of_nat (cnt caps l2) = (i - nw)%Z /\
    ((i <= nw)%Z -> l2 = []) /\
    ((nw < i)%Z -> exists c rest, l2 = c :: rest /\ py_str_in (String c EmptyString) caps = true).
Proof.
  induction n as [|n IH]; intros pre suf i Hl Hlen Hi Hc.
  - destruct pre as [|c pre]; [|simpl in Hlen; lia].
    simpl in Hc. exists [], []. split; [reflexivity|].
    simpl. destruct (Z.ltb_spec nw i) as [H|H]; [lia|].
    split; [reflexivity|]. split; [simpl; lia|]. split; [reflexivity|]. intros; lia.
  - simpl. destruct (Z.ltb_spec nw i) as [Hlt|Hge].
    + destruct (list_eq_dec ascii_dec pre []) as [Hnil|Hne].
      { subst pre. simpl in Hc. lia. }
      destruct (exists_last Hne) as [pre' [c Hpre]]. subst pre.
      rewrite length_app in *. cbn [List.length] in *.
      assert (Hidx : py_str_index (string_of_list_ascii labels_l)
                       (Z.of_nat (List.length pre' + 1) - 1) = Ok c).
      { unfold py_str_index. rewrite length_sol.
        assert (HL : List.length labels_l = List.length pre' + 1 + List.length suf)
          by (subst labels_l; rewrite !length_app; simpl; lia).
        unfold py_index. rewrite HL.
        destruct (Z.leb_spec 0 (Z.of_nat (List.length pre' + 1) - 1)) as [H0|H0]; [|lia].
        destruct (Z.ltb_spec (Z.of_nat (List.length pre' + 1) - 1)
                    (Z.of_nat (List.length pre' + 1 + List.length suf))) as [H1|H1]; [|lia].
        simpl. replace (Z.to_nat (Z.of_nat (List.length pre' + 1) - 1)) with (List.length pre') by lia.
        rewrite get_sol, Hl, <- app_assoc, nth_error_app2 by lia.
        rewrite Nat.sub_diag. reflexivity. }
      rewrite Hidx. simpl.
      remember (py_str_in (String c EmptyString) caps) as b eqn:Eb.
      set (i' := if b then (i - 1)%Z else i).
      assert (Hcnt : cnt caps (pre' ++ [c]) = cnt caps pre' + (if b then 1 else 0)).
      { rewrite cnt_app. unfold cnt at 2. simpl. rewrite <- Eb. destruct b; reflexivity. }
      rewrite Hcnt in Hc.
      destruct (IH pre' (c :: suf) i') as [l1 [l2 [Hp [Hrun [Hc2 [Hst Hhd]]]]]].
      * rewrite Hl, <- app_assoc. reflexivity.
      * lia.
      * subst i'. destruct b; lia.
      * subst i'. destruct b; lia.
      * exists l1, (l2 ++ [c]). split; [rewrite Hp, app_assoc; reflexivity|].
        split.
        { replace (Z.of_nat (List.length pre' + 1) - 1 - 1)%Z
            with (Z.of_nat (List.length pre') - 1)%Z by lia.
          exact Hrun. }
        split; [rewrite cnt_app; unfold cnt at 2; simpl; rewrite <- Eb;
                subst i'; destruct b; simpl; lia|].
        split; [intros; lia|]. intros _.
        destruct (Z.ltb_spec nw i') as [Hlt'|Hge'].
        -- destruct (Hhd Hlt') as [c' [rest [Hl2 Hc']]]. subst l2.
           exists c', (rest ++ [c]). split; [reflexivity|exact Hc'].
        -- rewrite (Hst Hge'). exists c, []. split; [reflexivity|].
           subst i'. destruct b; [symmetry; exact Eb|lia].
    + exists pre, []. split; [rewrite app_nil_r; reflexivity|].
      split; [reflexivity|]. split; [simpl; lia|]. split; [reflexivity|]. intros; lia.
Qed.

Lemma class_count_cnt (caps : string) (l : list ascii) :
  class_count caps (string_of_list_ascii l) = cnt caps l.
Proof. unfold class_count, cnt. rewrite list_ascii_of_string_of_list_ascii. reflexivity. Qed.

(** In [adjust_predicted_labels_length], for a label string of ASCII
    letters and digits (where the character class [f"[{caps}]"] matches
    exactly the characters of [caps]), a segment with fewer words than
    label letters ([num_word_labels], counted in the segment) and labels
    with at least [num_word_labels - num_words] label letters has its labels
    cut just before the last [num_word_labels - num_words] label letters:
    the removed tail starts with a label letter and holds exactly that many. *)
Theorem adjust_one_truncates (caps segment labels : string) :
  plain_labels caps = true ->
  List.length (py_split segment) < class_count caps segment ->
  class_count caps segment - List.length (py_split segment) <= class_count caps labels ->
  exists l1 l2, adjust_one caps segment labels = Ok l1 /\ labels = (l1 ++ l2)%string /\
    class_count caps l2 = class_count caps segment - List.length (py_split segment) /\
    exists c rest, l2 = String c rest /\ py_str_in (String c EmptyString) caps = true.
Proof.
  intros _ Hlt Hle.
  set (nw := List.length (py_split segment)) in *.
  set (nwl := class_count caps segment) in *.
  set (ll := list_ascii_of_string labels).
  assert (Hlab : labels = string_of_list_ascii ll)
    by (subst ll; symmetry; apply string_of_list_ascii_of_string).
  destruct (trunc_loop_spec caps (Z.of_nat nw) ll (2 * String.length labels) ll []
              (Z.of_nat nwl) (eq_sym (app_nil_r ll)))
    as [l1 [l2 [Hp [Hrun [Hc [_ Hhd]]]]]].
  - rewrite Hlab, length_sol. lia.
  - lia.
  - rewrite Hlab, class_count_cnt in Hle. lia.
  - destruct (Hhd ltac:(lia)) as [c [rest [Hl2 Hcaps]]].
    assert (Hlen : String.length labels = List.length ll) by (rewrite Hlab; apply length_sol).
    rewrite Hlen in Hrun.
    exists (string_of_list_ascii l1), (string_of_list_ascii l2).
    unfold adjust_one. fold nw nwl.
    destruct (Z.ltb_spec (Z.of_nat nwl) (Z.of_nat nw)) as [H|_]; [lia|].
    destruct (Z.ltb_spec (Z.of_nat nw) (Z.of_nat nwl)) as [_|H]; [|lia].
    rewrite Hlab, length_sol, Hrun. simpl. split.
    + f_equal. unfold py_slice_to. rewrite length_sol.
      replace (Z.of_nat (List.length l1) - 1 + 1)%Z with (Z.of_nat (List.length l1)) by lia.
      destruct (Z.ltb_spec (Z.of_nat (List.length l1)) 0) as [H|_]; [lia|].
      assert (Hl1 : List.length ll = List.length l1 + List.length l2)
        by (rewrite Hp, length_app; reflexivity).
      rewrite Z.min_l by lia. rewrite Nat2Z.id, Hp. apply substring_sol.
    + split; [rewrite Hp; apply sol_app|].
      split; [rewrite class_count_cnt; lia|].
      exists c, (string_of_list_ascii rest). rewrite Hl2. split; [reflexivity|exact Hcaps].
Qed.

Lemma adjust_one_truncates_witness :
  plain_labels "OuU"%string = true /\
  adjust_one "OuU"%string "a OuU"%string "U O u U"%string = Ok "U O u "%string /\
  exists l1 l2, adjust_one "OuU"%string "a OuU"%string "U O u U"%string = Ok l1 /\
    "U O u U"%string = (l1 ++ l2)%string /\
    class_count "OuU"%string l2 = 1 /\
    exists c rest, l2 = String c rest /\ py_str_in (String c EmptyString) "OuU"%string = true.
Proof.
  split; [vm_compute; reflexivity|].
  split; [vm_compute; reflexivity|].
  exact (adjust_one_truncates "OuU"%string "a OuU"%string "U O u U"%string
           ltac:(vm_compute; reflexivity) ltac:(vm_compute; lia) ltac:(vm_compute; lia)).
Defined.

End PunctNMTLabelsFacts.

Module SplitSegmentsFacts.
Import PunctNMT.

Lemma combine_snoc {A B : Type} (l1 : list A) (l2 : list B) (a : A) (b : B) :
  List.length l1 = List.length l2 ->
  combine (l1 ++ [a]) (l2 ++ [b]) = combine l1 l2 ++ [(a, b)].
Proof.
  revert l2. induction l1 as [|x l1 IH]; intros [|y l2] H; simpl in *; try discriminate;
    [reflexivity|]. rewrite IH by lia. reflexivity.
Qed.

Section Windows.
Variable P : string * nat * nat -> Prop.

Definition seg_inv (st : SegState) : Prop :=
  List.length (query_indices st) = List.length (segments st) /\
  List.length (start_word_i st) = List.length (segments st) /\
  Forall P (combine (combine (segments st) (query_indices st)) (start_word_i st)).

Lemma while_segments_inv (words : list string) (q_i max_seq_length step : nat) :
  (forall s, s + max_seq_length < List.length words ->
     P (join_space (firstn max_seq_length (skipn s words)), q_i, s)) ->
  forall fuel st st', seg_inv st ->
  while_segments fuel words q_i max_seq_length step st = Some st' -> seg_inv st'.
Proof.
  intros HP fuel. induction fuel as [|fuel IH]; intros st st' Hinv H; simpl in H;
    [discriminate|].
  destruct (Nat.ltb_spec (segment_start st + max_seq_length) (List.length words)) as [Hlt|_];
    [|injection H as <-; exact Hinv].
  refine (IH _ _ _ H).
  destruct Hinv as [H1 [H2 H3]]. unfold seg_inv. simpl. rewrite !length_app. simpl.
  split; [lia|]. split; [lia|].
  rewrite combine_snoc by lia. rewrite combine_snoc by (rewrite length_combine; lia).
  apply Forall_app. split; [exact H3|]. constructor; [apply HP; exact Hlt|constructor].
Qed.
End Windows.

(** Every segment [split_into_segments] returns is the window of
    [max_seq_length] words of its query, [' '.join(words[s : s + max])],
    for [q = query_indices[j]] and [s = start_word_i[j]], with
    [s + max_seq_length < len(words)]: the three lists have one entry per
    segment, and a query of at most [max_seq_length] words gets none. *)
Theorem split_into_segments_windows (texts : list string) (max_seq_length step : nat)
    (segs : list string) (qi sw : list nat) :
  split_into_segments texts max_seq_length step = Some (segs, qi, sw) ->
  List.length qi = List.length segs /\ List.length sw = List.length segs /\
  Forall (fun x => exists query, nth_error texts (snd (fst x)) = Some query /\
            snd x + max_seq_length < List.length (py_split query) /\
            fst (fst x) = join_space (firstn max_seq_length (skipn (snd x) (py_split query))))
    (combine (combine segs qi) sw).
Proof.
  set (P := fun x : string * nat * nat => exists query, nth_error texts (snd (fst x)) = Some query /\
            snd x + max_seq_length < List.length (py_split query) /\
            fst (fst x) = join_space (firstn max_seq_length (skipn (snd x) (py_split query)))).
  assert (Hloop : forall ts q_i st st',
    (forall k, nth_error ts k = nth_error texts (q_i + k)) ->
    seg_inv P st -> queries_loop ts q_i max_seq_length step st = Some st' -> seg_inv P st').
  { induction ts as [|query ts IH]; intros q_i st st' Hts Hinv H; cbn [queries_loop] in H;
      [injection H as <-; exact Hinv|].
    destruct (while_segments (S (List.length (py_split query))) (py_split query) q_i
                max_seq_length step st) as [st1|] eqn:Hw; [|discriminate].
    apply (IH (S q_i) st1 st'); [| |exact H].
    - intros k. specialize (Hts (S k)). simpl in Hts. rewrite Hts. f_equal. lia.
    - refine (while_segments_inv P (py_split query) q_i max_seq_length step _ _ st st1 Hinv Hw).
      intros s Hs. exists query. simpl. split; [|split; [exact Hs|reflexivity]].
      specialize (Hts 0). simpl in Hts. rewrite Nat.add_0_r in Hts. rewrite <- Hts. reflexivity. }
  unfold split_into_segments.
  destruct (queries_loop texts 0 max_seq_length step (mkSegState [] [] [] 0)) as [st|] eqn:Hq;
    [|discriminate].
  intros H. injection H as <- <- <-.
  apply (Hloop texts 0 (mkSegState [] [] [] 0) st); [reflexivity| |exact Hq].
  unfold seg_inv. simpl. repeat split. constructor.
Qed.

Lemma split_into_segments_windows_witness :
  split_into_segments ["a b c d"%string; "e"%string] 2 1 =
    Some (["a b"%string; "b c"%string], [0; 0], [0; 1]) /\
  List.length [0; 0] = 2 /\ List.length [0; 1] = 2 /\
  Forall (fun x => exists query, nth_error ["a b c d"%string; "e"%string] (snd (fst x)) = Some query /\
            snd x + 2 < List.length (py_split query) /\
            fst (fst x) = join_space (firstn 2 (skipn (snd x) (py_split query))))
    (combine (combine ["a b"%string; "b c"%string] [0; 0]) [0; 1]).
Proof.
  assert (H : split_into_segments ["a b c d"%string; "e"%string] 2 1 =
                Some (["a b"%string; "b c"%string], [0; 0], [0; 1])) by (vm_compute; reflexivity).
  split; [exact H|]. exact (split_into_segments_windows _ _ _ _ _ _ H).
Defined.

End SplitSegmentsFacts.

Module TsVadMetricFacts.
Import PunctNMT PunctNMTLabels PunctNMTLabelsFacts TsVadMetric.

Lemma in_indices3 (a b c i j k : nat) :
  In (i, j, k) (indices3 a b c) -> i < a /\ j < b /\ k < c.
Proof.
  unfold indices3. intros H.
  apply in_flat_map in H as [i' [Hi H]]. apply in_flat_map in H as [j' [Hj H]].
  apply in_map_iff in H as [k' [Hk Hk']]. injection Hk as -> -> ->.
  apply in_seq in Hi, Hj, Hk'. lia.
Qed.

Lemma length_indices3 (a b c : nat) : List.length (indices3 a b c) = a * b * c.
Proof.
  unfold indices3. induction a as [|a IH]; [reflexivity|].
  rewrite seq_S, flat_map_app, length_app, IH. simpl.
  rewrite app_nil_r. clear IH.
  assert (Hb : forall n, List.length (flat_map (fun j => map (fun k => (a, j, k)) (seq 0 c)) (seq 0 n)) = n * c).
  { induction n as [|n IHn]; [reflexivity|].
    rewrite seq_S, flat_map_app, length_app, IHn. simpl. rewrite app_nil_r, length_map, length_seq. lia. }
  rewrite Hb. lia.
Qed.

Lemma count_split {A : Type} (l : list A) (f g h : A -> bool) :
  (forall x, In x l -> (if f x then 1 else 0) = (if g x then 1 else 0) + (if h x then 1 else 0)) ->
  List.length (filter f l) = List.length (filter g l) + List.length (filter h l).
Proof.
  induction l as [|x l IH]; intros H; [reflexivity|]. simpl.
  specialize (IH (fun y Hy => H y (or_intror Hy))). specialize (H x (or_introl eq_refl)).
  destruct (f x), (g x), (h x); simpl in *; lia.
Qed.

Lemma filter_true_length {A : Type} (l : list A) :
  List.length (filter (fun _ => true) l) = List.length l.
Proof. induction l as [|x l IH]; simpl; congruence. Qed.

Lemma filter_ext_length {A : Type} (l : list A) (f g : A -> bool) :
  (forall x, In x l -> f x = g x) -> List.length (filter f l) = List.length (filter g l).
Proof. intros H. f_equal. apply filter_ext_in. exact H. Qed.

Lemma bidx_lt (dim i : nat) : i < dim -> bidx dim i = i.
Proof. unfold bidx. destruct (Nat.eqb_spec dim 1); lia. Qed.

Lemma bdim_same (a : nat) : bdim a a = Some a.
Proof. unfold bdim. rewrite Nat.eqb_refl. reflexivity. Qed.

(** With no broadcasting, the pair counts are counts of one index list. *)
Lemma count_pairs_same (p t : Tensor3) (f : bool -> bool -> bool) :
  d0 p = d0 t -> d1 p = d1 t -> d2 p = d2 t ->
  count_pairs p t f =
  Ok (Z.of_nat (List.length (filter (fun ijk => let '(i, j, k) := ijk in
        f (round_bool (elem p i j k)) (round_bool (elem t i j k))) (indices3 (d0 t) (d1 t) (d2 t))))).
Proof.
  intros H0 H1 H2. unfold count_pairs. rewrite H0, H1, H2, !bdim_same. f_equal. f_equal.
  apply filter_ext_length. intros [[i j] k] Hin. apply in_indices3 in Hin.
  rewrite !bidx_lt by lia. reflexivity.
Qed.

Definition counters_inv (st : MBAState) : Prop :=
  (correct_counts_k st + false_positive_count st + false_negative_count st = total_counts_k st)%Z /\
  (true_positive_count st + false_negative_count st = target_true st)%Z /\
  (true_positive_count st + false_positive_count st + predicted_true st = total_counts_k st)%Z.

Definition no_broadcast (b : Tensor3 * Tensor3) : Prop :=
  d0 (fst b) = d0 (snd b) /\ d2 (fst b) = d2 (snd b).

Lemma update_inv (st st' : MBAState) (p t : Tensor3) :
  counters_inv st -> no_broadcast (p, t) ->
  MultiBinaryAcc_update st p t = Ok st' -> counters_inv st'.
Proof.
  intros [I1 [I2 I3]] [H0 H2]. simpl in H0, H2. unfold MultiBinaryAcc_update.
  set (m := Nat.min (d1 p) (d1 t)).
  assert (E1 : d1 (slice_time3 p m) = d1 (slice_time3 t m)) by (simpl; subst m; lia).
  repeat rewrite (count_pairs_same (slice_time3 p m) (slice_time3 t m) _ H0 E1 H2). cbn [bind].
  intros E. injection E as <-. unfold counters_inv, count_where. cbn - [indices3 filter].
  set (l := indices3 (d0 t) (Nat.min m (d1 t)) (d2 t)).
  set (P := fun ijk : nat * nat * nat => let '(i, j, k) := ijk in round_bool (elem p i j k)).
  set (T := fun ijk : nat * nat * nat => let '(i, j, k) := ijk in round_bool (elem t i j k)).
  assert (Lp : indices3 (d0 p) (Nat.min m (d1 p)) (d2 p) = l).
  { subst l. rewrite H0, H2. f_equal. subst m. lia. }
  rewrite Lp.
  assert (Ltot : Nat.mul (Nat.mul (d0 t) (Nat.min m (d1 t))) (d2 t) = List.length l)
    by (subst l; rewrite length_indices3; reflexivity).
  rewrite Ltot.
  assert (C1 := count_split l (fun _ => true)
    (fun ijk => let '(i, j, k) := ijk in Bool.eqb (round_bool (elem p i j k)) (round_bool (elem t i j k)))
    (fun ijk => let '(i, j, k) := ijk in negb (Bool.eqb (round_bool (elem p i j k)) (round_bool (elem t i j k))))).
  assert (C2 := count_split l
    (fun ijk => let '(i, j, k) := ijk in negb (Bool.eqb (round_bool (elem p i j k)) (round_bool (elem t i j k))))
    (fun ijk => let '(i, j, k) := ijk in negb (Bool.eqb (round_bool (elem p i j k)) (round_bool (elem t i j k))) && round_bool (elem p i j k))
    (fun ijk => let '(i, j, k) := ijk in negb (Bool.eqb (round_bool (elem p i j k)) (round_bool (elem t i j k))) && negb (round_bool (elem p i j k)))).
  assert (C3 := count_split l
    (fun ijk => let '(i, j, k) := ijk in round_bool (elem t i j k))
    (fun ijk => let '(i, j, k) := ijk in Bool.eqb (round_bool (elem p i j k)) (round_bool (elem t i j k)) && round_bool (elem p i j k))
    (fun ijk => let '(i, j, k) := ijk in negb (Bool.eqb (round_bool (elem p i j k)) (round_bool (elem t i j k))) && negb (round_bool (elem p i j k)))).
  assert (C4 := count_split l (fun _ => true)
    (fun ijk => let '(i, j, k) := ijk in round_bool (elem p i j k))
    (fun ijk => let '(i, j, k) := ijk in negb (round_bool (elem p i j k)))).
  assert (C5 := count_split l
    (fun ijk => let '(i, j, k) := ijk in round_bool (elem p i j k))
    (fun ijk => let '(i, j, k) := ijk in Bool.eqb (round_bool (elem p i j k)) (round_bool (elem t i j k)) && round_bool (elem p i j k))
    (fun ijk => let '(i, j, k) := ijk in negb (Bool.eqb (round_bool (elem p i j k)) (round_bool (elem t i j k))) && round_bool (elem p i j k))).
  rewrite filter_true_length in C1, C4.
  assert (Hx : forall (x : nat * nat * nat) (g : bool -> bool -> bool),
             exists a b, (let '(i, j, k) := x in g (round_bool (elem p i j k)) (round_bool (elem t i j k))) = g a b /\
               (let '(i, j, k) := x in round_bool (elem p i j k)) = a /\
               (let '(i, j, k) := x in round_bool (elem t i j k)) = b).
  { intros [[i j] k] g. eexists _, _. split; [reflexivity|split; reflexivity]. }
  specialize (C1 ltac:(intros [[i j] k] _; destruct (round_bool (elem p i j k)), (round_bool (elem t i j k)); reflexivity)).
  specialize (C2 ltac:(intros [[i j] k] _; destruct (round_bool (elem p i j k)), (round_bool (elem t i j k)); reflexivity)).
  specialize (C3 ltac:(intros [[i j] k] _; destruct (round_bool (elem p i j k)), (round_bool (elem t i j k)); reflexivity)).
  specialize (C4 ltac:(intros [[i j] k] _; destruct (round_bool (elem p i j k)); reflexivity)).
  specialize (C5 ltac:(intros [[i j] k] _; destruct (round_bool (elem p i j k)), (round_bool (elem t i j k)); reflexivity)).
  clear Hx. subst P T. clearbody l. repeat split; lia.
Qed.

(** [MultiBinaryAcc.update] / [__init__]: as long as each batch's
    predictions and targets agree in batch and class size (they may differ
    in length, the longer one is cut), the counters of the metric satisfy
    [correct + fp + fn = total], [tp + fn = target_true] and
    [tp + fp + predicted_true = total]: [predicted_true] counts the
    predicted negatives, not the predicted positives its name suggests. *)
Theorem MultiBinaryAcc_counters (batches : list (Tensor3 * Tensor3)) (st : MBAState) :
  Forall no_broadcast batches ->
  run_updates MultiBinaryAcc_init batches = Ok st ->
  (correct_counts_k st + false_positive_count st + false_negative_count st = total_counts_k st)%Z /\
  (true_positive_count st + false_negative_count st = target_true st)%Z /\
  (true_positive_count st + false_positive_count st + predicted_true st = total_counts_k st)%Z.
Proof.
  intros HF H. change (counters_inv st). assert (I0 : counters_inv MultiBinaryAcc_init)
    by (unfold counters_inv; simpl; lia).
  revert H I0. generalize MultiBinaryAcc_init as st0.
  induction HF as [|[p t] batches Hb HF IH]; intros st0 H I0; simpl in H.
  - injection H as <-. exact I0.
  - destruct (MultiBinaryAcc_update st0 p t) as [st1|e] eqn:Hu; [|discriminate].
    exact (IH st1 H (update_inv st0 st1 p t I0 Hb Hu)).
Qed.

Lemma MultiBinaryAcc_counters_witness :
  let p := mkTensor3 1 3 2 (fun _ _ k => if Nat.eqb k 0 then 3 # 4 else 1 # 2) in
  let t := mkTensor3 1 2 2 (fun _ j _ => if Nat.eqb j 0 then 1%Q else 0%Q) in
  Forall no_broadcast [(p, t)] /\
  run_updates MultiBinaryAcc_init [(p, t)] = Ok (mkMBAState 2 4 2 2 1 1 1 2 true) /\
  (2 + 1 + 1 = 4)%Z /\ (1 + 1 = 2)%Z /\ (1 + 1 + 2 = 4)%Z.
Proof.
  intros p t.
  assert (HF : Forall no_broadcast [(p, t)]) by (constructor; [split; reflexivity|constructor]).
  assert (HR : run_updates MultiBinaryAcc_init [(p, t)] = Ok (mkMBAState 2 4 2 2 1 1 1 2 true))
    by (vm_compute; reflexivity).
  split; [exact HF|]. split; [exact HR|].
  exact (MultiBinaryAcc_counters [(p, t)] _ HF HR).
Defined.

Lemma count_pairs_nonneg (p t : Tensor3) f z : count_pairs p t f = Ok z -> (0 <= z)%Z.
Proof. unfold count_pairs. destruct (bdim (d0 p) (d0 t)), (bdim (d1 p) (d1 t)), (bdim (d2 p) (d2 t)); try discriminate.
  intros H. injection H as <-. lia. Qed.

Definition counts_nonneg (st : MBAState) : Prop :=
  (0 <= true_positive_count st)%Z /\ (0 <= false_positive_count st)%Z /\
  (0 <= false_negative_count st)%Z.

Lemma run_updates_state (batches : list (Tensor3 * Tensor3)) : forall st0 st,
  counts_nonneg st0 -> run_updates st0 batches = Ok st ->
  counts_nonneg st /\ (batches = [] -> st = st0) /\
  (batches <> [] -> counts_are_tensors st = true).
Proof.
  induction batches as [|[p t] batches IH]; intros st0 st N0 H; simpl in H.
  - injection H as <-. split; [exact N0|]. split; [reflexivity|]. intros C. contradiction.
  - destruct (MultiBinaryAcc_update st0 p t) as [st1|e] eqn:Hu; [|discriminate].
    unfold MultiBinaryAcc_update in Hu.
    destruct (count_pairs _ _ (fun p t => Bool.eqb p t && p)) as [tp|] eqn:E1; [|discriminate].
    destruct (count_pairs _ _ (fun p t => negb (Bool.eqb p t) && p)) as [fp|] eqn:E2; [|discriminate].
    destruct (count_pairs _ _ (fun p t => negb (Bool.eqb p t) && negb p)) as [fn|] eqn:E3; [|discriminate].
    destruct (count_pairs _ _ (fun p t => Bool.eqb p t)) as [c|] eqn:E4; [|discriminate].
    cbn [bind] in Hu. injection Hu as <-.
    apply count_pairs_nonneg in E1, E2, E3.
    destruct N0 as [N1 [N2 N3]].
    assert (N : counts_nonneg (mkMBAState (correct_counts_k st0 + c)
      (total_counts_k st0 + Z.of_nat (d0 (slice_time3 t (Nat.min (d1 p) (d1 t))) *
         d1 (slice_time3 t (Nat.min (d1 p) (d1 t))) * d2 (slice_time3 t (Nat.min (d1 p) (d1 t)))))
      (target_true st0 + count_where (slice_time3 t (Nat.min (d1 p) (d1 t))) (fun t0 => t0))
      (predicted_true st0 + count_where (slice_time3 p (Nat.min (d1 p) (d1 t))) negb)
      (true_positive_count st0 + tp) (false_positive_count st0 + fp)
      (false_negative_count st0 + fn)
      (count_where (slice_time3 p (Nat.min (d1 p) (d1 t))) (fun p0 => p0)) true))
      by (unfold counts_nonneg; simpl; lia).
    destruct (IH _ st N H) as [Ns [_ Ht]]. split; [exact Ns|]. split; [discriminate|].
    intros _. destruct batches as [|b bs].
    + simpl in H. injection H as <-. reflexivity.
    + apply Ht. discriminate.
Qed.

Lemma inject_Z_eq0 (z : Z) : Qeq_bool (inject_Z z) 0 = Z.eqb z 0.
Proof.
  destruct (Qeq_bool (inject_Z z) 0) eqn:E; symmetry.
  - apply Qeq_bool_iff in E. apply Z.eqb_eq. apply (proj1 (inject_Z_injective z 0)). exact E.
  - apply Z.eqb_neq. intros ->. discriminate E.
Qed.

Lemma Qeq_bool_false_pos (q : Q) : (0 < q)%Q -> Qeq_bool q 0 = false.
Proof.
  intros H. destruct (Qeq_bool q 0) eqn:E; [|reflexivity].
  apply Qeq_bool_iff in E. rewrite E in H. discriminate H.
Qed.

Lemma inject_Z_pos (z : Z) : (0 < z)%Z -> (0 < inject_Z z)%Q.
Proof. intros H. unfold Qlt. simpl. lia. Qed.

(** [MultiBinaryAcc.compute]: on a fresh metric it raises
    [ZeroDivisionError]; after one update or more it returns [-1] when no
    true positive was counted (whatever the other counts), and otherwise
    the f1 score [2 tp / (2 tp + fp + fn)] (its value in exact arithmetic). *)
Theorem MultiBinaryAcc_compute_f1 (batches : list (Tensor3 * Tensor3)) (st : MBAState) :
  run_updates MultiBinaryAcc_init batches = Ok st ->
  match batches with
  | [] => MultiBinaryAcc_compute st = Err ZeroDivisionError
  | _ :: _ =>
      exists q, MultiBinaryAcc_compute st = Ok (Fin q) /\
      if Z.eqb (true_positive_count st) 0 then q = inject_Z (-1)
      else (q == inject_Z (2 * true_positive_count st) /
                 inject_Z (2 * true_positive_count st + false_positive_count st +
                           false_negative_count st))%Q
  end.
Proof.
  intros H.
  destruct (run_updates_state batches MultiBinaryAcc_init st
              ltac:(unfold counts_nonneg; simpl; lia) H) as [[N1 [N2 N3]] [He Hne]].
  destruct batches as [|b bs].
  - rewrite (He eq_refl). reflexivity.
  - specialize (Hne ltac:(discriminate)). unfold MultiBinaryAcc_compute. rewrite Hne. cbn [negb].
    set (tp := true_positive_count st) in *. set (fp := false_positive_count st) in *.
    set (fn := false_negative_count st) in *.
    destruct (Z.eqb_spec tp 0) as [E0|E0].
    + exists (inject_Z (-1)). split; [|reflexivity]. f_equal. rewrite E0. unfold F.
      rewrite !Z.add_0_l.
      destruct (Z.eqb_spec fp 0) as [->|Fp]; [reflexivity|].
      destruct (Z.eqb_spec fn 0) as [->|Fn].
      * cbn [fdiv]. rewrite (inject_Z_eq0 fp). apply Z.eqb_neq in Fp. rewrite Fp. reflexivity.
      * cbn [fdiv]. rewrite (inject_Z_eq0 fp), (inject_Z_eq0 fn).
        apply Z.eqb_neq in Fp, Fn. rewrite Fp, Fn. cbn [fmul fadd].
        assert (Z1 : Qeq_bool (inject_Z 0 / inject_Z fp + inject_Z 0 / inject_Z fn) 0 = true).
        { apply Qeq_bool_iff. unfold Qdiv. simpl. reflexivity. }
        cbn [fdiv]. rewrite Z1.
        assert (Z2 : Qeq_bool (inject_Z 2 * (inject_Z 0 / inject_Z fp) * (inject_Z 0 / inject_Z fn)) 0 = true).
        { apply Qeq_bool_iff. unfold Qdiv. simpl. reflexivity. }
        rewrite Z2. reflexivity.
    + assert (Ptp : (0 < inject_Z tp)%Q) by (apply inject_Z_pos; lia).
      assert (Pfp : (0 < inject_Z (tp + fp))%Q) by (apply inject_Z_pos; lia).
      assert (Pfn : (0 < inject_Z (tp + fn))%Q) by (apply inject_Z_pos; lia).
      unfold F. cbn [fdiv]. rewrite (Qeq_bool_false_pos _ Pfp), (Qeq_bool_false_pos _ Pfn).
      cbn [fmul fadd].
      assert (Pp : (0 < inject_Z tp / inject_Z (tp + fp))%Q)
        by (apply Qlt_shift_div_l; [exact Pfp | rewrite Qmult_0_l; exact Ptp]).
      assert (Pr : (0 < inject_Z tp / inject_Z (tp + fn))%Q)
        by (apply Qlt_shift_div_l; [exact Pfn | rewrite Qmult_0_l; exact Ptp]).
      assert (Ps : (0 < inject_Z tp / inject_Z (tp + fp) + inject_Z tp / inject_Z (tp + fn))%Q).
      { apply (Qlt_trans _ (inject_Z tp / inject_Z (tp + fp))); [exact Pp|].
        rewrite <- (Qplus_0_r (inject_Z tp / inject_Z (tp + fp))) at 1.
        apply Qplus_lt_r. exact Pr. }
      cbn [fdiv]. rewrite (Qeq_bool_false_pos _ Ps). cbn [is_nan].
      eexists. split; [reflexivity|].
      assert (A1 : ~ (inject_Z (tp + fp) == 0)%Q) by (intros X; rewrite X in Pfp; discriminate Pfp).
      assert (A2 : ~ (inject_Z (tp + fn) == 0)%Q) by (intros X; rewrite X in Pfn; discriminate Pfn).
      assert (A3 : ~ (inject_Z (2 * tp + fp + fn) == 0)%Q).
      { intros X. apply (proj1 (inject_Z_injective _ 0)) in X. lia. }
      assert (A4 : ~ (inject_Z tp == 0)%Q) by (intros X; rewrite X in Ptp; discriminate Ptp).
      rewrite !inject_Z_plus, !inject_Z_mult in *.
      field. repeat split; unfold Qeq, Qplus, Qmult, inject_Z; cbn [Qnum Qden]; nia.
Qed.

Lemma MultiBinaryAcc_compute_f1_witness :
  let p := mkTensor3 1 3 2 (fun _ _ k => if Nat.eqb k 0 then 3 # 4 else 1 # 2) in
  let t := mkTensor3 1 2 2 (fun _ j _ => if Nat.eqb j 0 then 1%Q else 0%Q) in
  run_updates MultiBinaryAcc_init [(p, t)] = Ok (mkMBAState 2 4 2 2 1 1 1 2 true) /\
  exists q, MultiBinaryAcc_compute (mkMBAState 2 4 2 2 1 1 1 2 true) = Ok (Fin q) /\
    (q == inject_Z 2 / inject_Z 4)%Q.
Proof.
  intros p t.
  assert (HR : run_updates MultiBinaryAcc_init [(p, t)] = Ok (mkMBAState 2 4 2 2 1 1 1 2 true))
    by (vm_compute; reflexivity).
  split; [exact HR|]. exact (MultiBinaryAcc_compute_f1 [(p, t)] _ HR).
Defined.

Lemma py_str_in_cons (n : string) (c : ascii) (s : string) :
  py_str_in n (String c s) = String.prefix n (String c s) || py_str_in n s.
Proof. reflexivity. Qed.

Lemma prefix_single (a c : ascii) (s : string) :
  String.prefix (String a EmptyString) (String c s) = (if ascii_dec a c then true else false).
Proof. simpl. destruct (ascii_dec a c); [destruct s|]; reflexivity. Qed.

Lemma py_str_in_slash_cons (c : ascii) (s : string) :
  py_str_in "/" (String c s) = false -> c <> "/"%char /\ py_str_in "/" s = false.
Proof.
  rewrite py_str_in_cons, prefix_single.
  destruct (ascii_dec "/" c) as [<-|n]; [discriminate|].
  intros H. split; [intros E; apply n; symmetry; exact E|exact H].
Qed.

Lemma py_str_in_slash_app (a b : string) :
  py_str_in "/" a = false -> py_str_in "/" b = false -> py_str_in "/" (a ++ b) = false.
Proof.
  induction a as [|c a IH]; intros Ha Hb; [exact Hb|].
  apply py_str_in_slash_cons in Ha as [Hc Ha]. simpl (String c a ++ b)%string.
  rewrite py_str_in_cons, prefix_single.
  destruct (ascii_dec "/" c) as [E|_]; [exfalso; apply Hc; symmetry; exact E|].
  exact (IH Ha Hb).
Qed.

Lemma split_slash_none (s : string) : forall cur,
  py_str_in "/" s = false -> split_sep_go "/" s 0 cur = [string_of_rev cur s].
Proof.
  induction s as [|c s IH]; intros cur H; [reflexivity|].
  apply py_str_in_slash_cons in H as [Hc H]. rewrite split_sep_go_cons, prefix_single.
  destruct (ascii_dec "/" c) as [E|_]; [exfalso; apply Hc; symmetry; exact E|].
  exact (IH (c :: cur) H).
Qed.

Lemma split_slash_last (d b : string) : forall cur,
  exists pre, split_sep_go "/" (d ++ String "/" b) 0 cur = (pre ++ split_sep_go "/" b 0 [])%list.
Proof.
  induction d as [|c d IH]; intros cur.
  - exists [string_of_rev cur EmptyString]. cbn [String.append].
    rewrite split_sep_go_cons, prefix_single.
    destruct (ascii_dec "/" "/") as [_|n]; [reflexivity|exfalso; apply n; reflexivity].
  - simpl (String c d ++ _)%string. rewrite split_sep_go_cons.
    destruct (String.prefix "/" (String c (d ++ String "/" b))).
    + destruct (IH []) as [pre Hpre]. exists (string_of_rev cur EmptyString :: pre).
      simpl. rewrite Hpre. reflexivity.
    + exact (IH (c :: cur)).
Qed.

Lemma prefix_cons (a : ascii) (n : string) (c : ascii) (s : string) :
  String.prefix (String a n) (String c s) = (if ascii_dec a c then String.prefix n s else false).
Proof. reflexivity. Qed.

Lemma rttm_no_straddle (c : ascii) (u : string) :
  String.prefix ".rttm" (String c u) = false ->
  String.prefix ".rttm" (String c (u ++ ".rttm")) = false.
Proof.
  rewrite !prefix_cons. destruct (ascii_dec "." c) as [<-|_]; [|auto].
  destruct u as [|c1 u]; [intros; reflexivity|]. cbn [String.append]. rewrite !prefix_cons.
  destruct (ascii_dec "r" c1) as [<-|_]; [|auto].
  destruct u as [|c2 u]; [intros; reflexivity|]. cbn [String.append]. rewrite !prefix_cons.
  destruct (ascii_dec "t" c2) as [<-|_]; [|auto].
  destruct u as [|c3 u]; [intros; reflexivity|]. cbn [String.append]. rewrite !prefix_cons.
  destruct (ascii_dec "t" c3) as [<-|_]; [|auto].
  destruct u as [|c4 u]; [intros; reflexivity|]. cbn [String.append]. rewrite !prefix_cons.
  destruct (ascii_dec "m" c4) as [<-|_]; [|auto].
  destruct u; intros H; exact H.
Qed.

Lemma split_rttm_suffix (name : string) : forall cur,
  py_str_in ".rttm" name = false ->
  split_sep_go ".rttm" (name ++ ".rttm") 0 cur = [string_of_rev cur name; EmptyString].
Proof.
  induction name as [|c name IH]; intros cur H; [reflexivity|].
  rewrite py_str_in_cons in H. apply orb_false_iff in H as [H1 H2].
  simpl (String c name ++ _)%string. rewrite split_sep_go_cons, (rttm_no_straddle c name H1).
  exact (IH (c :: cur) H2).
Qed.

Lemma list_index_last {A : Type} (pre : list A) (x : A) :
  list_index (pre ++ [x])%list (-1) = Ok x.
Proof.
  unfold list_index, py_index. rewrite length_app. simpl.
  replace ((0 <=? -1)%Z) with false by reflexivity.
  replace ((- Z.of_nat (List.length pre + 1) <=? -1)%Z) with true by (symmetry; apply Z.leb_le; lia).
  simpl. replace (Z.to_nat (Z.of_nat (List.length pre + 1) + -1)) with (List.length pre) by lia.
  unfold list_get. rewrite nth_error_app2 by lia. rewrite Nat.sub_diag. reflexivity.
Qed.

(** [ClusterEmbedding.get_uniq_id]: for a path [<dir>/<name>.rttm] (or
    [<name>.rttm]), where [name] has no [/] and no [.rttm], the id is
    [name]. *)
Theorem get_uniq_id_name (dir name : string) :
  (dir = EmptyString \/ exists d, dir = (d ++ "/")%string) ->
  py_str_in "/" name = false -> py_str_in ".rttm" name = false ->
  get_uniq_id (dir ++ name ++ ".rttm") = Ok name.
Proof.
  intros Hdir Hs Hr.
  assert (Hb : py_str_in "/" (name ++ ".rttm") = false)
    by (apply py_str_in_slash_app; [exact Hs|reflexivity]).
  assert (Hparts : exists pre, split_sep_go "/" (dir ++ name ++ ".rttm") 0 [] =
                                 (pre ++ [(name ++ ".rttm")%string])%list).
  { destruct Hdir as [->|[d ->]].
    - exists []. simpl. rewrite (split_slash_none _ [] Hb). reflexivity.
    - destruct (split_slash_last d (name ++ ".rttm") []) as [pre Hpre].
      exists pre. rewrite <- sapp_assoc. simpl ("/" ++ _)%string. rewrite Hpre.
      rewrite (split_slash_none _ [] Hb). reflexivity. }
  destruct Hparts as [pre Hpre].
  unfold get_uniq_id, py_str_split. simpl (String.eqb "/" EmptyString). cbn [bind].
  rewrite Hpre, list_index_last. cbn [bind].
  simpl (String.eqb ".rttm" EmptyString). cbn [bind].
  rewrite (split_rttm_suffix name [] Hr). reflexivity.
Qed.

Lemma get_uniq_id_name_witness :
  get_uniq_id ("data/rttm/" ++ "sess_01" ++ ".rttm")%string = Ok "sess_01"%string.
Proof.
  apply (get_uniq_id_name "data/rttm/"%string "sess_01"%string).
  - right. exists "data/rttm"%string. reflexivity.
  - reflexivity.
  - reflexivity.
Defined.

End TsVadMetricFacts.
